(** * hftshm: shared-memory ring buffer header layout

    A shallow embedding of [hftshm/layout.hpp] (geometry helpers, paths and
    the metadata codec), of the segment types of [hftshm/types.hpp] and of the
    platform policy of [hftshm/platform.hpp].

    Unsigned C++ integers are modelled as [Z] with the wrap-around written out
    ([wrap8], [wrap16], [wrap32], [wrap64]).  Operations whose behaviour the
    C++ standard leaves undefined (a shift by at least the width of the
    operand, a division by zero) yield [Undefined]. *)

From Stdlib Require Import ZArith List Bool Lia.
From Stdlib Require String Ascii.
From ITree Require Import ITree.
Import ListNotations.
Local Open Scope Z_scope.

(** ** Fixed-width unsigned arithmetic *)

Definition wrap8 (x : Z) : Z := x mod 2 ^ 8.
Definition wrap16 (x : Z) : Z := x mod 2 ^ 16.
Definition wrap32 (x : Z) : Z := x mod 2 ^ 32.
Definition wrap64 (x : Z) : Z := x mod 2 ^ 64.

Definition uint8 (x : Z) : Prop := 0 <= x < 2 ^ 8.
Definition uint16 (x : Z) : Prop := 0 <= x < 2 ^ 16.
Definition uint32 (x : Z) : Prop := 0 <= x < 2 ^ 32.
Definition uint64 (x : Z) : Prop := 0 <= x < 2 ^ 64.

(** [x] is a power of two: [x = 2^k] for some [k >= 0]. *)
Definition pow2 (x : Z) : Prop := exists k, 0 <= k /\ x = 2 ^ k.

(** [e] is the least exponent with [2^e >= x]. *)
Definition ceil_log2 (x e : Z) : Prop :=
  0 <= e /\ x <= 2 ^ e /\ forall e', 0 <= e' < e -> 2 ^ e' < x.

(** [e] is the base-2 logarithm of [x]: [x = 2^e] exactly. *)
Definition is_log2 (x e : Z) : Prop := 0 <= e /\ x = 2 ^ e.

(** ** Outcomes of a C++ evaluation *)

Inductive outcome (A : Type) : Type :=
| Returns (a : A)
| Undefined
| OutOfFuel.
Arguments Returns {A} a.
Arguments Undefined {A}.
Arguments OutOfFuel {A}.

Definition bind {A B : Type} (o : outcome A) (k : A -> outcome B) : outcome B :=
  match o with
  | Returns a => k a
  | Undefined => Undefined
  | OutOfFuel => OutOfFuel
  end.

Notation "'do' x <- e ; k" := (bind e (fun x => k))
  (at level 10, x name, e at level 100, k at level 200).

Module hftshm.

(** *** Cache and page constants *)

(** [CACHE_LINE] is resolved per target; the header asserts it is 64 or 128.
    Every definition that depends on it takes it as its first argument. *)
Definition CACHE_LINE_ok (CACHE_LINE : Z) : Prop :=
  CACHE_LINE = 64 \/ CACHE_LINE = 128.

Definition PAGE_SIZE : Z := 4096.
Definition PAGE_SIZE_LOG2 : Z := 12.

(** *** Magic number and version *)

Definition METADATA_MAGIC : Z := 0x00024D4853544648.
Definition METADATA_VERSION : Z := 2.

(** *** Power-of-2 helpers *)

(** [a << n] on a 32-bit unsigned operand. *)
Definition shl32 (a n : Z) : outcome Z :=
  if (0 <=? n) && (n <? 32) then Returns (wrap32 (Z.shiftl a n)) else Undefined.

(** The loop [while ((1u << log2) < size) ++log2;] of [size_to_log2], started
    from the counter value [log2]; one unit of fuel per evaluation of the
    loop condition. *)
Fixpoint size_to_log2_loop (fuel : nat) (log2 size : Z) : outcome Z :=
  match fuel with
  | O => OutOfFuel
  | S fuel' =>
      do p <- shl32 1 log2;
      if p <? size
      then size_to_log2_loop fuel' (wrap8 (log2 + 1)) size
      else Returns log2
  end.

(** The condition is evaluated with shift counts 0, 1, ..., 32 at most: the
    evaluation with count 32 is already undefined. *)
Definition size_to_log2_fuel : nat := 33.

Definition size_to_log2 (size : Z) : outcome Z :=
  size_to_log2_loop size_to_log2_fuel 0 size.

Definition log2_to_size (log2 : Z) : outcome Z := shl32 1 log2.

Definition is_power_of_2 (x : Z) : bool :=
  negb (x =? 0) && (Z.land x (wrap32 (x - 1)) =? 0).

(** *** Metadata structure *)

Definition METADATA_FIXED_SIZE : Z := 39.

Record metadata : Type := mk_metadata {
  magic : Z;
  version : Z;
  max_consumers : Z;
  event_size : Z;
  producer_pid : Z;
  buffer_size : Z;
  producer_offset : Z;
  consumer_0_offset : Z;
  header_size : Z;
  index_mask : Z;
  event_size_log2 : Z;
  buffer_size_log2 : Z;
  header_size_log2 : Z;
  padding : list Z
}.

(** A record as it sits in memory: every field within its type, and
    [CACHE_LINE - METADATA_FIXED_SIZE] padding bytes. *)
Definition metadata_wf (CACHE_LINE : Z) (m : metadata) : Prop :=
  uint64 (magic m) /\ uint8 (version m) /\ uint8 (max_consumers m) /\
  uint16 (event_size m) /\ uint32 (producer_pid m) /\ uint32 (buffer_size m) /\
  uint32 (producer_offset m) /\ uint32 (consumer_0_offset m) /\
  uint32 (header_size m) /\ uint32 (index_mask m) /\
  uint8 (event_size_log2 m) /\ uint8 (buffer_size_log2 m) /\
  uint8 (header_size_log2 m) /\
  Forall uint8 (padding m) /\
  Z.of_nat (length (padding m)) = CACHE_LINE - METADATA_FIXED_SIZE.

(** A freshly created, zero-filled header segment. *)
Definition zero_metadata (CACHE_LINE : Z) : metadata :=
  mk_metadata 0 0 0 0 0 0 0 0 0 0 0 0 0
    (repeat 0 (Z.to_nat (CACHE_LINE - METADATA_FIXED_SIZE))).

(** *** Metadata accessors *)

Definition event_offset (meta : metadata) (index : Z) : outcome Z :=
  shl32 index (event_size_log2 meta).

Definition buffer_index (meta : metadata) (sequence : Z) : Z :=
  Z.land (wrap32 sequence) (index_mask meta).

Definition validate_sizes (meta : metadata) : bool :=
  let buffer_ok :=
    is_power_of_2 (buffer_size meta) &&
    (index_mask meta =? wrap32 (buffer_size meta - 1)) in
  buffer_ok.

(** *** Section layout *)

Definition DEFAULT_PRODUCER_SECTION_SIZE (CACHE_LINE : Z) : Z := wrap32 (2 * CACHE_LINE).
Definition DEFAULT_CONSUMER_SECTION_SIZE (CACHE_LINE : Z) : Z := wrap32 (2 * CACHE_LINE).

Definition default_producer_offset (CACHE_LINE : Z) : Z := wrap32 CACHE_LINE.

Definition default_consumer_0_offset (CACHE_LINE producer_section_size : Z) : Z :=
  wrap32 (CACHE_LINE + producer_section_size).

(** [max_consumers * consumer_section_size] is a 32-bit product; the sum is
    taken in [size_t] and converted to [uint32_t] on return. *)
Definition raw_header_size
    (CACHE_LINE max_consumers producer_section_size consumer_section_size : Z) : Z :=
  wrap32 (CACHE_LINE + producer_section_size
          + wrap32 (max_consumers * consumer_section_size)).

Definition header_segment_size
    (CACHE_LINE max_consumers producer_section_size consumer_section_size : Z) : Z :=
  let raw := raw_header_size CACHE_LINE max_consumers
               producer_section_size consumer_section_size in
  wrap32 (wrap32 (wrap32 (raw + PAGE_SIZE) - 1) / PAGE_SIZE * PAGE_SIZE).

(** *** Metadata operations *)

(** [std::fill(first, last, v)] over an array held as a list. *)
Definition fill (arr : list Z) (v : Z) : list Z := map (fun _ => v) arr.

(** [metadata_init] overwrites the record at [ptr]; [meta] is the record found
    there and the result is the record left there. *)
Definition metadata_init (meta : metadata)
    (max_consumers event_size buffer_size
     producer_offset consumer_0_offset header_size : Z) : outcome metadata :=
  do event_size_log2 <-
     (if negb (event_size =? 0) then size_to_log2 event_size else Returns 0);
  do buffer_size_log2 <- size_to_log2 buffer_size;
  do header_size_log2 <- size_to_log2 header_size;
  Returns
    {| magic := METADATA_MAGIC;
       version := METADATA_VERSION;
       max_consumers := max_consumers;
       event_size := event_size;
       producer_pid := 0;
       buffer_size := buffer_size;
       producer_offset := producer_offset;
       consumer_0_offset := consumer_0_offset;
       header_size := header_size;
       index_mask := wrap32 (buffer_size - 1);
       event_size_log2 := event_size_log2;
       buffer_size_log2 := buffer_size_log2;
       header_size_log2 := header_size_log2;
       padding := fill (padding meta) 0 |}.

Definition metadata_validate (meta : metadata) : bool :=
  (magic meta =? METADATA_MAGIC) && (version meta =? METADATA_VERSION).

Definition metadata_get (meta : metadata) : metadata := meta.

Definition producer_section_size (meta : metadata) : Z :=
  wrap32 (consumer_0_offset meta - producer_offset meta).

Definition consumer_section_size (CACHE_LINE : Z) (meta : metadata) : outcome Z :=
  let raw_end := raw_header_size CACHE_LINE (max_consumers meta)
                   (DEFAULT_PRODUCER_SECTION_SIZE CACHE_LINE)
                   (DEFAULT_CONSUMER_SECTION_SIZE CACHE_LINE) in
  if max_consumers meta =? 0 then Undefined
  else Returns (wrap32 (raw_end - consumer_0_offset meta) / max_consumers meta).

Definition consumer_offset (CACHE_LINE : Z) (meta : metadata) (n : Z) : outcome Z :=
  do sz <- consumer_section_size CACHE_LINE meta;
  Returns (wrap32 (consumer_0_offset meta + wrap32 (n * sz))).

(** *** Data segment size calculation *)

Definition HUGEPAGE_2MB : Z := 2 * 1024 * 1024.
Definition HUGEPAGE_1GB : Z := 1024 * 1024 * 1024.

Definition data_segment_size (buffer_size hugepage_size : Z) : Z :=
  if hugepage_size =? 0 then buffer_size
  else wrap32 (wrap32 (wrap32 (buffer_size + hugepage_size) - 1)
               / hugepage_size * hugepage_size).

(** *** Path conventions *)

Import Ascii String.

(** The target the header is compiled for ([__linux__], [__APPLE__] or
    neither) selects [BASE_PATH]. *)
Variant platform : Type := linux | apple | other_platform.

Definition BASE_PATH (target : platform) : string :=
  match target with
  | linux => "/dev/shm/hft"%string
  | apple => "/tmp/hft"%string
  | other_platform => "/tmp/hft"%string
  end.

(** [std::string(BASE_PATH) + "/" + std::string(name) + ".hdr"] *)
Definition get_header_path (target : platform) (name : string) : string :=
  (((BASE_PATH target ++ "/") ++ name) ++ ".hdr")%string.

Definition get_data_path (target : platform) (name : string) : string :=
  (((BASE_PATH target ++ "/") ++ name) ++ ".dat")%string.

(** *** Segment types

    A field of fundamental type that a default-initialised [SegmentInfo]
    leaves unwritten is [None]. *)

Module SegmentInfo.
Record t : Type := mk {
  path : string;
  exists_ : option bool;
  size : option Z;
  permissions : string;
  hugepage_size : option Z;
  last_modified : string
}.
End SegmentInfo.

Module SegmentHandle.
Record t : Type := mk {
  fd : Z;
  ptr : Z;
  size : Z;
  path : string
}.

(** [SegmentHandle() : fd(-1), ptr(nullptr), size(0) {}] *)
Definition default : t := mk (-1) 0 0 ""%string.

Definition is_valid (h : t) : bool :=
  (0 <=? fd h) && negb (ptr h =? 0) && (0 <? size h).
End SegmentHandle.

(** *** Platform policy: release operations

    The policy talks to the kernel; its operations are interaction trees over
    the system calls they may issue.  [LinuxShmPolicy] and [MacOSShmPolicy]
    have the same [unmap] and [close_fd]. *)

Module policies.

Variant sysE : Type -> Type :=
| sys_munmap (addr length : Z) : sysE Z
| sys_close (fd : Z) : sysE Z.

Definition nullptr : Z := 0.

(** [MAP_FAILED] is [(void * ) -1], the all-ones address of a 64-bit target. *)
Definition MAP_FAILED : Z := 2 ^ 64 - 1.

(** [if (ptr && ptr != MAP_FAILED) ::munmap(ptr, size);] *)
Definition unmap (ptr size : Z) : itree sysE unit :=
  if negb (ptr =? nullptr) && negb (ptr =? MAP_FAILED)
  then ITree.bind (ITree.trigger (sys_munmap ptr size)) (fun _ => Ret tt)
  else Ret tt.

(** [if (fd >= 0) ::close(fd);] *)
Definition close_fd (fd : Z) : itree sysE unit :=
  if 0 <=? fd
  then ITree.bind (ITree.trigger (sys_close fd)) (fun _ => Ret tt)
  else Ret tt.

(** *** Platform policy: the system interface

    The remaining operations of the policy call into [<fcntl.h>],
    [<unistd.h>], [<sys/mman.h>], [<sys/stat.h>] and [std::filesystem].  The
    constants of those headers are not part of this repository: they are the
    fields of [posix_abi], and every operation is parametric in them.
    [platform.hpp] uses [MAP_HUGETLB], [MAP_HUGE_2MB] and [MAP_HUGE_1GB] only
    under [#ifdef]: each is [Some] value where the headers define the macro
    and [None] where they do not. *)

Class posix_abi : Type := {
  O_RDWR : Z; O_CREAT : Z; O_EXCL : Z;
  EEXIST : Z;
  PROT_READ : Z; PROT_WRITE : Z;
  MAP_SHARED : Z;
  MAP_HUGETLB : option Z; MAP_HUGE_2MB : option Z; MAP_HUGE_1GB : option Z;
  S_IRUSR : Z; S_IWUSR : Z; S_IXUSR : Z;
  S_IRGRP : Z; S_IWGRP : Z; S_IXGRP : Z;
  S_IROTH : Z; S_IWOTH : Z; S_IXOTH : Z
}.

(** The fields of [struct stat] that the policy reads. *)
Record stat_t : Type := mk_stat { st_size : Z; st_mode : Z; st_mtime : Z }.

(** Calls that answer with a status also fill their out-parameter: [sys_fstat]
    and [sys_stat] answer with the return value and the [struct stat].  The
    two [std::filesystem] queries answer [None] when they throw
    [filesystem_error].  [get_errno] reads [errno].  [format_localtime] stands
    for the conversion of a modification time through [localtime] and
    [std::put_time] with the given format. *)
Variant posixE : Type -> Type :=
| fs_create_directories (path : string) : posixE (option bool)
| fs_exists (path : string) : posixE (option bool)
| sys_open (path : string) (flags : Z) (mode : option Z) : posixE Z
| get_errno : posixE Z
| sys_ftruncate (fd length : Z) : posixE Z
| sys_unlink (path : string) : posixE Z
| sys_mmap (addr length prot flags fd offset : Z) : posixE Z
| sys_fstat (fd : Z) : posixE (Z * stat_t)
| sys_stat (path : string) : posixE (Z * stat_t)
| format_localtime (time : Z) (format : string) : posixE string.

Definition platformE : Type -> Type := sysE +' posixE.

(** How a call of an operation that may throw ends. *)
Variant completion (A : Type) : Type :=
| returns (a : A)
| throws_filesystem_error.
Arguments returns {A} a.
Arguments throws_filesystem_error {A}.

(** [static_cast<off_t>(size)]: a 64-bit unsigned value read as signed. *)
Definition static_cast_off_t (size : Z) : Z := (size + 2 ^ 63) mod 2 ^ 64 - 2 ^ 63.

(** [static_cast<std::size_t>(st.st_size)] *)
Definition static_cast_size_t (x : Z) : Z := wrap64 x.

Import ITreeNotations.
Local Open Scope itree_scope.

Module LinuxShmPolicy.
Section WithAbi.
Context {abi : posix_abi}.

Definition BASE_PATH : string := "/dev/shm/hft"%string.

Definition ensure_base_dir : itree platformE (completion unit) :=
  r <- trigger (fs_create_directories BASE_PATH);;
  match r with
  | Some _ => Ret (returns tt)
  | None => Ret throws_filesystem_error
  end.

Definition get_path (name : string) : string :=
  ((BASE_PATH ++ "/") ++ name)%string.

Definition get_header_path (name : string) : string :=
  (get_path name ++ ".hdr")%string.

Definition get_data_path (name : string) : string :=
  (get_path name ++ ".dat")%string.

Definition create (name : string) (size hugepage_size : Z)
  : itree platformE (completion Z) :=
  r <- ensure_base_dir;;
  match r with
  | throws_filesystem_error => Ret throws_filesystem_error
  | returns _ =>
    let path := get_path name in
    fd <- trigger (sys_open path (Z.lor (Z.lor O_RDWR O_CREAT) O_EXCL) (Some 438));;
    if fd <? 0 then
      errno <- trigger get_errno;;
      if errno =? EEXIST then
        fd <- trigger (sys_open path O_RDWR None);;
        if fd <? 0 then Ret (returns (-1))
        else
          rc <- trigger (sys_ftruncate fd (static_cast_off_t size));;
          if negb (rc =? 0) then
            _ <- trigger (sys_close fd);;
            Ret (returns (-1))
          else Ret (returns fd)
      else Ret (returns (-1))
    else
      rc <- trigger (sys_ftruncate fd (static_cast_off_t size));;
      if negb (rc =? 0) then
        _ <- trigger (sys_close fd);;
        _ <- trigger (sys_unlink path);;
        Ret (returns (-1))
      else Ret (returns fd)
  end.

(** The flags of the first [mmap].  Each [#ifdef] of the source is the match
    on the macro being defined: without [MAP_HUGETLB] the whole block is
    compiled out, and without [MAP_HUGE_2MB] or [MAP_HUGE_1GB] the line that
    adds it is. *)
Definition map_flags (hugepage_size : Z) : Z :=
  let flags := MAP_SHARED in
  if 0 <? hugepage_size then
    match MAP_HUGETLB with
    | Some hugetlb =>
        let flags := Z.lor flags hugetlb in
        let flags :=
          match MAP_HUGE_2MB with
          | Some huge_2mb =>
              if hugepage_size =? HUGEPAGE_2MB then Z.lor flags huge_2mb else flags
          | None => flags
          end in
        let flags :=
          match MAP_HUGE_1GB with
          | Some huge_1gb =>
              if hugepage_size =? HUGEPAGE_1GB then Z.lor flags huge_1gb else flags
          | None => flags
          end in
        flags
    | None => flags
    end
  else flags.

Definition map (fd size hugepage_size : Z) : itree platformE Z :=
  let flags := map_flags hugepage_size in
  ptr <- trigger (sys_mmap nullptr size (Z.lor PROT_READ PROT_WRITE) flags fd 0);;
  if (ptr =? MAP_FAILED) && (0 <? hugepage_size) then
    ptr <- trigger (sys_mmap nullptr size (Z.lor PROT_READ PROT_WRITE) MAP_SHARED fd 0);;
    Ret (if ptr =? MAP_FAILED then nullptr else ptr)
  else
    Ret (if ptr =? MAP_FAILED then nullptr else ptr).

Definition open (name : string) : itree platformE Z :=
  trigger (sys_open (get_path name) O_RDWR None).

Definition get_size (fd : Z) : itree platformE Z :=
  r <- trigger (sys_fstat fd);;
  let '(rc, st) := r in
  Ret (if rc =? 0 then static_cast_size_t (st_size st) else 0).

Definition unlink (name : string) : itree platformE bool :=
  rc <- trigger (sys_unlink (get_path name));;
  Ret (rc =? 0).

(** One character of the permission string:
    [(st.st_mode & mask) ? c : '-']. *)
Definition perm_char (mode mask : Z) (c : ascii) : ascii :=
  if negb (Z.land mode mask =? 0) then c else "-"%char.

Definition permissions_of (mode : Z) : string :=
  String (perm_char mode S_IRUSR "r")
  (String (perm_char mode S_IWUSR "w")
  (String (perm_char mode S_IXUSR "x")
  (String (perm_char mode S_IRGRP "r")
  (String (perm_char mode S_IWGRP "w")
  (String (perm_char mode S_IXGRP "x")
  (String (perm_char mode S_IROTH "r")
  (String (perm_char mode S_IWOTH "w")
  (String (perm_char mode S_IXOTH "x") EmptyString)))))))).

Definition get_info (name : string)
  : itree platformE (completion SegmentInfo.t) :=
  let path := get_path name in
  ex <- trigger (fs_exists path);;
  match ex with
  | None => Ret throws_filesystem_error
  | Some false =>
      Ret (returns (SegmentInfo.mk path (Some false) (Some 0) ""%string
                      (Some 0) ""%string))
  | Some true =>
      r <- trigger (sys_stat path);;
      let '(rc, st) := r in
      if rc =? 0 then
        last_modified <- trigger (format_localtime (st_mtime st)
                                    "%Y-%m-%d %H:%M:%S"%string);;
        Ret (returns (SegmentInfo.mk path (Some true)
                        (Some (static_cast_size_t (st_size st)))
                        (permissions_of (st_mode st)) (Some 0) last_modified))
      else
        Ret (returns (SegmentInfo.mk path (Some true) None ""%string
                        (Some 0) ""%string))
  end.

End WithAbi.
End LinuxShmPolicy.

Module MacOSShmPolicy.
Section WithAbi.
Context {abi : posix_abi}.

Definition BASE_PATH : string := "/tmp/hft"%string.

Definition get_path (name : string) : string :=
  ((BASE_PATH ++ "/") ++ name)%string.

Definition get_header_path (name : string) : string :=
  (get_path name ++ ".hdr")%string.

Definition get_data_path (name : string) : string :=
  (get_path name ++ ".dat")%string.

Definition map (fd size hugepage_size : Z) : itree platformE Z :=
  ptr <- trigger (sys_mmap nullptr size (Z.lor PROT_READ PROT_WRITE) MAP_SHARED fd 0);;
  Ret (if ptr =? MAP_FAILED then nullptr else ptr).

End WithAbi.
End MacOSShmPolicy.

End policies.

End hftshm.

(** ** Running a policy operation against a kernel

    A [kernel] answers the [n]-th call of a run.  [run] executes an operation
    against it and returns the calls made, each with its answer, and the
    result; one unit of fuel per node of the tree. *)

Module Kernel.
Import hftshm.policies.

Definition kernel : Type := nat -> forall T : Type, platformE T -> T.

Variant call : Type := Syscall (T : Type) (e : platformE T) (answer : T).

Fixpoint run {R : Type} (fuel : nat) (k : kernel) (n : nat) (t : itree platformE R)
  : option (list call * R) :=
  match fuel with
  | O => None
  | S fuel' =>
      match observe t with
      | RetF r => Some ([], r)
      | TauF t' => run fuel' k n t'
      | VisF e cont =>
          let x := k n _ e in
          match run fuel' k (S n) (cont x) with
          | Some (tr, r) => Some (Syscall _ e x :: tr, r)
          | None => None
          end
      end
  end.

(** The descriptor a call hands out: a successful [open]. *)
Definition opened (c : call) : option Z :=
  match c with
  | Syscall _ (inr1 e) x =>
      match e in posixE T return T -> option Z with
      | sys_open _ _ _ => fun fd => if 0 <=? fd then Some fd else None
      | _ => fun _ => None
      end x
  | Syscall _ (inl1 _) _ => None
  end.

(** The descriptor a call gives back: [close]. *)
Definition closed (c : call) : option Z :=
  match c with
  | Syscall _ (inl1 e) _ =>
      match e with
      | sys_close fd => Some fd
      | sys_munmap _ _ => None
      end
  | Syscall _ (inr1 _) _ => None
  end.

(** The descriptors still held after a trace, starting from [held]. *)
Fixpoint held_fds (held : list Z) (tr : list call) : list Z :=
  match tr with
  | [] => held
  | c :: tr' =>
      let held := match opened c with Some fd => fd :: held | None => held end in
      let held := match closed c with
                  | Some fd => remove Z.eq_dec fd held
                  | None => held
                  end in
      held_fds held tr'
  end.

Definition open_fds (tr : list call) : list Z := held_fds [] tr.

(** The paths a trace unlinks. *)
Fixpoint unlinked (tr : list call) : list String.string :=
  match tr with
  | [] => []
  | Syscall _ (inr1 (sys_unlink path)) _ :: tr' => path :: unlinked tr'
  | _ :: tr' => unlinked tr'
  end.

(** The [mmap] calls of a trace, as (length, prot, flags, fd, answer). *)
Definition mmap_of (c : call) : option (Z * Z * Z * Z * Z) :=
  match c with
  | Syscall _ (inr1 e) x =>
      match e in posixE T return T -> option (Z * Z * Z * Z * Z) with
      | sys_mmap addr length prot flags fd offset =>
          fun p => if (addr =? nullptr) && (offset =? 0)
                   then Some (length, prot, flags, fd, p) else None
      | _ => fun _ => None
      end x
  | Syscall _ (inl1 _) _ => None
  end.


(** The constants of Linux on x86-64 as the headers that [platform.hpp]
    includes give them, used to run the operations on examples:
    [<sys/mman.h>] defines [MAP_HUGETLB] and neither [MAP_HUGE_2MB] nor
    [MAP_HUGE_1GB]. *)
Definition linux_x86_64 : posix_abi :=
  {| O_RDWR := 2; O_CREAT := 64; O_EXCL := 128;
     EEXIST := 17;
     PROT_READ := 1; PROT_WRITE := 2;
     MAP_SHARED := 1; MAP_HUGETLB := Some 262144;
     MAP_HUGE_2MB := None; MAP_HUGE_1GB := None;
     S_IRUSR := 256; S_IWUSR := 128; S_IXUSR := 64;
     S_IRGRP := 32; S_IWGRP := 16; S_IXGRP := 8;
     S_IROTH := 4; S_IWOTH := 2; S_IXOTH := 1 |}.

(** The same target with headers that also define [MAP_HUGE_2MB] and
    [MAP_HUGE_1GB] (as [<linux/mman.h>] does: 21 and 30 shifted by 26). *)
Definition linux_x86_64_MAP_HUGE : posix_abi :=
  {| O_RDWR := 2; O_CREAT := 64; O_EXCL := 128;
     EEXIST := 17;
     PROT_READ := 1; PROT_WRITE := 2;
     MAP_SHARED := 1; MAP_HUGETLB := Some 262144;
     MAP_HUGE_2MB := Some 1409286144; MAP_HUGE_1GB := Some 2013265920;
     S_IRUSR := 256; S_IWUSR := 128; S_IXUSR := 64;
     S_IRGRP := 32; S_IWGRP := 16; S_IXGRP := 8;
     S_IROTH := 4; S_IWOTH := 2; S_IXOTH := 1 |}.

(** A kernel whose [n]-th call answers [ints n] where an integer is due,
    [fs n] to the [std::filesystem] queries and [st n] as the [struct stat]. *)
Definition scripted (ints : nat -> Z) (fs : nat -> option bool) (st : nat -> stat_t)
  : kernel :=
  fun n T e =>
    match e with
    | inl1 e =>
        match e in sysE T return T with
        | sys_munmap _ _ => ints n
        | sys_close _ => ints n
        end
    | inr1 e =>
        match e in posixE T return T with
        | fs_create_directories _ => fs n
        | fs_exists _ => fs n
        | sys_open _ _ _ => ints n
        | get_errno => ints n
        | sys_ftruncate _ _ => ints n
        | sys_unlink _ => ints n
        | sys_mmap _ _ _ _ _ _ => ints n
        | sys_fstat _ => (ints n, st n)
        | sys_stat _ => (ints n, st n)
        | format_localtime _ _ => String.EmptyString
        end
    end.

(** The exclusive [open] fails with [EEXIST], the plain [open] answers 5. *)
Definition attach_kernel : kernel :=
  scripted (fun n => nth n [0; -1; 17; 5; 0] 0) (fun _ => Some true)
    (fun _ => mk_stat 4096 420 0).

(** The exclusive [open] answers 5 and [ftruncate] fails. *)
Definition full_disk_kernel : kernel :=
  scripted (fun n => nth n [0; 5; -1; 0; 0] 0) (fun _ => Some true)
    (fun _ => mk_stat 0 420 0).

(** The first [mmap] answers [MAP_FAILED], the second an address. *)
Definition no_hugepage_kernel : kernel :=
  scripted (fun n => nth n [MAP_FAILED; 140737488355328] 0) (fun _ => Some true)
    (fun _ => mk_stat 0 0 0).

(** The object exists and [stat] fails. *)
Definition stat_fails_kernel : kernel :=
  scripted (fun n => nth n [0; -1] 0) (fun _ => Some true)
    (fun _ => mk_stat 0 0 0).

End Kernel.

Import hftshm.

(** ** Arithmetic helpers *)

Lemma wrap32_small x : 0 <= x < 2 ^ 32 -> wrap32 x = x.
Proof. intros H. unfold wrap32. now apply Z.mod_small. Qed.

Lemma wrap8_small x : 0 <= x < 2 ^ 8 -> wrap8 x = x.
Proof. intros H. unfold wrap8. now apply Z.mod_small. Qed.

Lemma wrap32_range x : 0 <= wrap32 x < 2 ^ 32.
Proof. unfold wrap32. apply Z.mod_pos_bound. lia. Qed.

Lemma pow2_le_31 e : 0 <= e <= 31 -> 0 < 2 ^ e <= 2 ^ 31.
Proof.
  intros H. split.
  - apply Z.pow_pos_nonneg; lia.
  - apply Z.pow_le_mono_r; lia.
Qed.

Lemma shl32_one e : 0 <= e <= 31 -> shl32 1 e = Returns (2 ^ e).
Proof.
  intros H. unfold shl32.
  replace ((0 <=? e) && (e <? 32)) with true by (symmetry; apply andb_true_iff; lia).
  rewrite Z.shiftl_1_l. f_equal. apply wrap32_small.
  pose proof (pow2_le_31 e H). lia.
Qed.

Lemma shl32_out_of_range a e : 32 <= e -> shl32 a e = Undefined.
Proof.
  intros H. unfold shl32.
  replace (e <? 32) with false by (symmetry; apply Z.ltb_ge; lia).
  now rewrite andb_false_r.
Qed.

(** ** The loop of [size_to_log2] *)

Lemma size_to_log2_loop_step fuel e size :
  0 <= e <= 31 ->
  size_to_log2_loop (S fuel) e size =
  if 2 ^ e <? size then size_to_log2_loop fuel (e + 1) size else Returns e.
Proof.
  intros H. cbn [size_to_log2_loop]. rewrite shl32_one by assumption. cbn [bind].
  rewrite wrap8_small; [reflexivity|]. change (2 ^ 8) with 256. lia.
Qed.

(** Started at a counter [i] below which every power is too small, with fuel
    for the remaining counts, the loop returns the least sufficient exponent. *)
Lemma size_to_log2_loop_returns fuel : forall i size,
  0 <= i <= 31 -> size <= 2 ^ 31 ->
  (Z.to_nat (32 - i) <= fuel)%nat ->
  (forall e', 0 <= e' < i -> 2 ^ e' < size) ->
  exists e, size_to_log2_loop fuel i size = Returns e /\
            i <= e <= 31 /\ ceil_log2 size e.
Proof.
  induction fuel as [|fuel IH]; intros i size Hi Hsz Hfuel Hlow.
  - lia.
  - rewrite size_to_log2_loop_step by assumption.
    destruct (2 ^ i <? size) eqn:Hc.
    + apply Z.ltb_lt in Hc.
      assert (i < 31).
      { destruct (Z.eq_dec i 31) as [->|]; [lia|lia]. }
      destruct (IH (i + 1) size) as (e & He & Hr & Hcl); try lia.
      * intros e' He'. destruct (Z.eq_dec e' i) as [->|]; [assumption|].
        apply Hlow. lia.
      * exists e. split; [assumption|]. split; [lia|assumption].
    + apply Z.ltb_ge in Hc. exists i.
      split; [reflexivity|]. split; [lia|].
      unfold ceil_log2. split; [lia|]. split; assumption.
Qed.

(** Above [2^31] the loop condition holds for every defined shift count, so
    the loop never returns a value, whatever the fuel. *)
Lemma size_to_log2_loop_no_return fuel : forall i size v,
  0 <= i <= 32 -> 2 ^ 31 < size ->
  size_to_log2_loop fuel i size <> Returns v.
Proof.
  induction fuel as [|fuel IH]; intros i size v Hi Hsz.
  - discriminate.
  - destruct (Z.eq_dec i 32) as [->|Hne].
    + cbn [size_to_log2_loop]. rewrite shl32_out_of_range by lia. discriminate.
    + rewrite size_to_log2_loop_step by lia.
      pose proof (pow2_le_31 i ltac:(lia)).
      replace (2 ^ i <? size) with true by (symmetry; apply Z.ltb_lt; lia).
      apply IH; lia.
Qed.

Lemma size_to_log2_loop_undefined fuel : forall i size,
  0 <= i <= 32 -> 2 ^ 31 < size ->
  (Z.to_nat (33 - i) <= fuel)%nat ->
  size_to_log2_loop fuel i size = Undefined.
Proof.
  induction fuel as [|fuel IH]; intros i size Hi Hsz Hfuel.
  - lia.
  - destruct (Z.eq_dec i 32) as [->|Hne].
    + cbn [size_to_log2_loop]. now rewrite shl32_out_of_range by lia.
    + rewrite size_to_log2_loop_step by lia.
      pose proof (pow2_le_31 i ltac:(lia)).
      replace (2 ^ i <? size) with true by (symmetry; apply Z.ltb_lt; lia).
      apply IH; lia.
Qed.

Lemma size_to_log2_returns size :
  size <= 2 ^ 31 ->
  exists e, size_to_log2 size = Returns e /\ 0 <= e <= 31 /\ ceil_log2 size e.
Proof.
  intros H. unfold size_to_log2, size_to_log2_fuel.
  apply size_to_log2_loop_returns; try lia.
Qed.

Lemma ceil_log2_unique x e1 e2 : ceil_log2 x e1 -> ceil_log2 x e2 -> e1 = e2.
Proof.
  intros (H1 & L1 & M1) (H2 & L2 & M2).
  destruct (Z.lt_trichotomy e1 e2) as [Hlt|[Heq|Hgt]]; [|assumption|].
  - specialize (M2 e1 ltac:(lia)). lia.
  - specialize (M1 e2 ltac:(lia)). lia.
Qed.

Lemma ceil_log2_pow2 k : 0 <= k -> ceil_log2 (2 ^ k) k.
Proof.
  intros Hk. unfold ceil_log2. split; [assumption|]. split; [lia|].
  intros e' He'. apply Z.pow_lt_mono_r; lia.
Qed.

Lemma size_to_log2_pow2 k : 0 <= k <= 31 -> size_to_log2 (2 ^ k) = Returns k.
Proof.
  intros Hk.
  destruct (size_to_log2_returns (2 ^ k)) as (e & He & _ & Hc).
  - apply pow2_le_31; assumption.
  - rewrite He. f_equal. eapply ceil_log2_unique; [eassumption|].
    apply ceil_log2_pow2. lia.
Qed.

(** ** [is_power_of_2] *)

Lemma pow2_is_power_of_2 k : 0 <= k -> 2 ^ k < 2 ^ 32 -> is_power_of_2 (2 ^ k) = true.
Proof.
  intros Hk Hlt. unfold is_power_of_2.
  assert (Hpos : 0 < 2 ^ k) by (apply Z.pow_pos_nonneg; lia).
  apply andb_true_iff. split.
  - apply negb_true_iff, Z.eqb_neq. lia.
  - apply Z.eqb_eq. rewrite wrap32_small by lia.
    replace (2 ^ k - 1) with (Z.ones k) by (rewrite Z.ones_equiv; lia).
    rewrite Z.land_ones by assumption. apply Z.mod_same. lia.
Qed.

Lemma is_power_of_2_pow2 x : uint32 x -> is_power_of_2 x = true -> pow2 x.
Proof.
  unfold uint32, is_power_of_2. intros Hx H.
  apply andb_true_iff in H. destruct H as [Hnz Hland].
  apply negb_true_iff, Z.eqb_neq in Hnz. apply Z.eqb_eq in Hland.
  rewrite wrap32_small in Hland by lia.
  assert (Hpos : 0 < x) by lia.
  destruct (Z.log2_spec x Hpos) as [Hlo Hhi].
  pose proof (Z.log2_nonneg x) as Hk.
  exists (Z.log2 x). split; [assumption|].
  destruct (Z.eq_dec x (2 ^ Z.log2 x)) as [Heq|Hne]; [assumption|exfalso].
  assert (Hlog : Z.log2 (x - 1) = Z.log2 x).
  { apply Z.log2_unique; [assumption|].
    replace (Z.succ (Z.log2 x)) with (Z.log2 x + 1) in Hhi by lia. lia. }
  assert (Hb1 : Z.testbit x (Z.log2 x) = true) by (apply Z.bit_log2; lia).
  assert (Hb2 : Z.testbit (x - 1) (Z.log2 x) = true).
  { rewrite <- Hlog. apply Z.bit_log2.
    assert (0 < 2 ^ Z.log2 x) by (apply Z.pow_pos_nonneg; lia). lia. }
  assert (Hb : Z.testbit (Z.land x (x - 1)) (Z.log2 x) = true)
    by (rewrite Z.land_spec, Hb1, Hb2; reflexivity).
  rewrite Hland, Z.bits_0 in Hb. discriminate.
Qed.

Lemma pow2_uint32_exponent x k : uint32 x -> 0 <= k -> x = 2 ^ k -> k <= 31.
Proof.
  unfold uint32. intros Hx Hk ->.
  destruct (Z_le_gt_dec k 31) as [|Hgt]; [assumption|exfalso].
  assert (2 ^ 32 <= 2 ^ k) by (apply Z.pow_le_mono_r; lia). lia.
Qed.

(** C6: for every 32-bit [x], [is_power_of_2 x] is true iff [x = 2^k] for some
    [k >= 0]; and [size_to_log2 (2^k)] returns [k] for every [0 <= k <= 31]. *)
Theorem is_power_of_2_iff_and_size_to_log2_pow2 (x k : Z) :
  uint32 x -> 0 <= k <= 31 ->
  (is_power_of_2 x = true <-> pow2 x) /\ size_to_log2 (2 ^ k) = Returns k.
Proof.
  intros Hx Hk. split; [split|].
  - apply is_power_of_2_pow2; assumption.
  - intros (j & Hj & ->). apply pow2_is_power_of_2; [assumption|apply Hx].
  - apply size_to_log2_pow2; assumption.
Qed.

Lemma is_power_of_2_iff_and_size_to_log2_pow2_witness :
  uint32 4096 /\ 0 <= 12 <= 31 /\
  (is_power_of_2 4096 = true <-> pow2 4096) /\ size_to_log2 (2 ^ 12) = Returns 12.
Proof.
  assert (H1 : uint32 4096) by (unfold uint32; lia).
  assert (H2 : 0 <= 12 <= 31) by lia.
  split; [exact H1|]. split; [exact H2|].
  exact (is_power_of_2_iff_and_size_to_log2_pow2 4096 12 H1 H2).
Defined.

(** C10: [size_to_log2] is total on inputs up to [2^31]: for [1 <= x <= 2^31]
    the loop terminates (any fuel of at least 33 condition evaluations gives
    the same result) and returns the least [e] with [2^e >= x];
    [size_to_log2 0] returns 0; for [x > 2^31] the loop condition holds at
    every exponent [e < 32], the loop never returns a value, and the
    evaluation ends in the undefined shift by 32. *)
Theorem size_to_log2_total_up_to_2_31 (x : Z) :
  uint32 x ->
  (1 <= x <= 2 ^ 31 ->
   exists e, size_to_log2 x = Returns e /\ ceil_log2 x e /\
             forall fuel, (33 <= fuel)%nat -> size_to_log2_loop fuel 0 x = Returns e) /\
  (x = 0 -> size_to_log2 x = Returns 0) /\
  (2 ^ 31 < x ->
   (forall e, 0 <= e < 32 -> shl32 1 e = Returns (2 ^ e) /\ (2 ^ e <? x) = true) /\
   (forall fuel v, size_to_log2_loop fuel 0 x <> Returns v) /\
   size_to_log2 x = Undefined).
Proof.
  intros Hx. split; [|split].
  - intros Hr.
    destruct (size_to_log2_returns x) as (e & He & _ & Hc); [lia|].
    exists e. split; [assumption|]. split; [assumption|].
    intros fuel Hfuel.
    destruct (size_to_log2_loop_returns fuel 0 x) as (e' & He' & _ & Hc'); try lia.
    rewrite He'. f_equal. eapply ceil_log2_unique; eassumption.
  - intros ->. reflexivity.
  - intros Hbig. split; [|split].
    + intros e He. split; [apply shl32_one; lia|].
      apply Z.ltb_lt. pose proof (pow2_le_31 e ltac:(lia)). lia.
    + intros fuel v. apply size_to_log2_loop_no_return; lia.
    + apply size_to_log2_loop_undefined; [lia|assumption|].
      unfold size_to_log2_fuel. lia.
Qed.

Lemma size_to_log2_total_up_to_2_31_witness :
  (uint32 5 /\ 1 <= 5 <= 2 ^ 31 /\
   exists e, size_to_log2 5 = Returns e /\ ceil_log2 5 e /\
             forall fuel, (33 <= fuel)%nat -> size_to_log2_loop fuel 0 5 = Returns e) /\
  (uint32 0 /\ size_to_log2 0 = Returns 0) /\
  (uint32 (2 ^ 31 + 1) /\ 2 ^ 31 < 2 ^ 31 + 1 /\
   size_to_log2 (2 ^ 31 + 1) = Undefined).
Proof.
  assert (H5 : uint32 5) by (unfold uint32; lia).
  assert (H0 : uint32 0) by (unfold uint32; lia).
  assert (Hb : uint32 (2 ^ 31 + 1)) by (unfold uint32; lia).
  assert (R5 : 1 <= 5 <= 2 ^ 31) by lia.
  assert (Rb : 2 ^ 31 < 2 ^ 31 + 1) by lia.
  split; [|split].
  - split; [exact H5|]. split; [exact R5|].
    exact (proj1 (size_to_log2_total_up_to_2_31 5 H5) R5).
  - split; [exact H0|].
    exact (proj1 (proj2 (size_to_log2_total_up_to_2_31 0 H0)) eq_refl).
  - split; [exact Hb|]. split; [exact Rb|].
    exact (proj2 (proj2 (proj2 (proj2 (size_to_log2_total_up_to_2_31 _ Hb)) Rb))).
Defined.

(** ** Slot index masking *)

Lemma land_pow2_mask a k : 0 <= k -> Z.land a (2 ^ k - 1) = a mod 2 ^ k.
Proof.
  intros Hk. replace (2 ^ k - 1) with (Z.ones k) by (rewrite Z.ones_equiv; lia).
  now apply Z.land_ones.
Qed.

Lemma pow2_divide_mono j k : 0 <= j <= k -> (2 ^ j | 2 ^ k).
Proof.
  intros H. exists (2 ^ (k - j)). rewrite <- Z.pow_add_r by lia. f_equal. lia.
Qed.

Lemma buffer_index_mod (meta : metadata) (sequence k : Z) :
  0 <= k <= 32 -> buffer_size meta = 2 ^ k ->
  index_mask meta = buffer_size meta - 1 ->
  buffer_index meta sequence = sequence mod 2 ^ k.
Proof.
  intros Hk Hbs Hmask. unfold buffer_index, wrap32.
  rewrite Hmask, Hbs, land_pow2_mask by lia.
  apply Z.mod_mod_divide, pow2_divide_mono. lia.
Qed.

(** C5: for every record whose [buffer_size] is a nonzero power of two and
    whose [index_mask] is [buffer_size - 1], and every 64-bit sequence number,
    [buffer_index meta sequence < buffer_size] and [buffer_index] takes the
    same value at [sequence + buffer_size] (the 64-bit sum). *)
Theorem buffer_index_bounded_and_periodic (meta : metadata) (sequence : Z) :
  uint32 (buffer_size meta) -> pow2 (buffer_size meta) ->
  index_mask meta = buffer_size meta - 1 ->
  uint64 sequence ->
  0 <= buffer_index meta sequence < buffer_size meta /\
  buffer_index meta sequence =
  buffer_index meta (wrap64 (sequence + buffer_size meta)).
Proof.
  intros Hbs (k & Hk & Hp) Hmask Hseq.
  pose proof (pow2_uint32_exponent _ _ Hbs Hk Hp) as Hk31.
  assert (Hpos : 0 < 2 ^ k) by (apply Z.pow_pos_nonneg; lia).
  rewrite !(buffer_index_mod meta _ k) by (assumption || lia).
  split.
  - rewrite Hp. apply Z.mod_pos_bound. assumption.
  - unfold wrap64. rewrite Hp.
    rewrite Z.mod_mod_divide by (apply pow2_divide_mono; lia).
    replace (sequence + 2 ^ k) with (sequence + 1 * 2 ^ k) by lia.
    now rewrite Z_mod_plus_full.
Qed.

Lemma buffer_index_bounded_and_periodic_witness :
  let meta := mk_metadata METADATA_MAGIC METADATA_VERSION 4 64 0 1024 64 192 4096
                1023 6 10 12 [] in
  buffer_index meta (2 ^ 64 - 1) = 1023 /\
  0 <= buffer_index meta (2 ^ 64 - 1) < buffer_size meta /\
  buffer_index meta (2 ^ 64 - 1) =
  buffer_index meta (wrap64 (2 ^ 64 - 1 + buffer_size meta)).
Proof.
  intros meta. split; [reflexivity|].
  apply (buffer_index_bounded_and_periodic meta (2 ^ 64 - 1)).
  - unfold uint32; simpl; lia.
  - exists 10. simpl. split; [lia|reflexivity].
  - reflexivity.
  - unfold uint64; lia.
Defined.

(** ** Rounding to page and hugepage multiples *)

Lemma wrap32_pred_wrap32 a : wrap32 (wrap32 a - 1) = wrap32 (a - 1).
Proof. unfold wrap32. apply Zminus_mod_idemp_l. Qed.

(** [(t / n) * n] for a 32-bit [t] and [n > 0] does not wrap, divides by [n],
    and lies in [(t - n, t]]. *)
Lemma round_down_32 t n :
  0 <= t < 2 ^ 32 -> 0 < n ->
  wrap32 (t / n * n) = t / n * n /\ (n | wrap32 (t / n * n)) /\
  t - n < t / n * n <= t.
Proof.
  intros Ht Hn.
  pose proof (Z.mul_div_le t n Hn) as Hle.
  pose proof (Z.mul_succ_div_gt t n Hn) as Hgt.
  assert (Hq : 0 <= t / n) by (apply Z.div_pos; lia).
  assert (Hw : wrap32 (t / n * n) = t / n * n) by (apply wrap32_small; nia).
  split; [exact Hw|]. split.
  - rewrite Hw. exists (t / n). reflexivity.
  - nia.
Qed.

(** Rounding the raw header size up to a page: always a page multiple, and
    within a page above the raw size unless the sum leaves 32 bits. *)
Lemma header_segment_size_round_up
    (CACHE_LINE max_consumers producer_section_size consumer_section_size : Z) :
  let raw := raw_header_size CACHE_LINE max_consumers
               producer_section_size consumer_section_size in
  let hss := header_segment_size CACHE_LINE max_consumers
               producer_section_size consumer_section_size in
  (PAGE_SIZE | hss) /\ (raw <= 2 ^ 32 - PAGE_SIZE -> raw <= hss < raw + PAGE_SIZE).
Proof.
  intros raw hss. subst hss. unfold header_segment_size. fold raw.
  assert (Hraw : 0 <= raw < 2 ^ 32) by apply wrap32_range.
  rewrite wrap32_pred_wrap32.
  pose proof (wrap32_range (raw + PAGE_SIZE - 1)) as Ht.
  destruct (round_down_32 (wrap32 (raw + PAGE_SIZE - 1)) PAGE_SIZE Ht)
    as (Hw & Hdiv & Hbounds); [unfold PAGE_SIZE; lia|].
  split; [exact Hdiv|].
  intros Hfit. rewrite Hw.
  rewrite wrap32_small in Hbounds by (unfold PAGE_SIZE in *; lia).
  rewrite wrap32_small by (unfold PAGE_SIZE in *; lia).
  lia.
Qed.

(** C7, amended: the result of [header_segment_size] is always a multiple of
    the page size; it is at least [raw_header_size] of the same arguments
    whenever that raw size is at most [2^32 - PAGE_SIZE], so that rounding up
    stays within 32 bits. *)
Theorem header_segment_size_page_multiple
    (CACHE_LINE max_consumers producer_section_size consumer_section_size : Z) :
  let raw := raw_header_size CACHE_LINE max_consumers
               producer_section_size consumer_section_size in
  let hss := header_segment_size CACHE_LINE max_consumers
               producer_section_size consumer_section_size in
  (PAGE_SIZE | hss) /\ (raw <= 2 ^ 32 - PAGE_SIZE -> raw <= hss).
Proof.
  intros raw hss.
  destruct (header_segment_size_round_up CACHE_LINE max_consumers
              producer_section_size consumer_section_size) as [Hdiv Hge].
  split; [exact Hdiv|]. intros Hfit. apply Hge. exact Hfit.
Qed.

Lemma header_segment_size_page_multiple_witness :
  raw_header_size 64 4 128 128 = 704 /\
  header_segment_size 64 4 128 128 = 4096 /\
  (PAGE_SIZE | header_segment_size 64 4 128 128) /\
  raw_header_size 64 4 128 128 <= header_segment_size 64 4 128 128.
Proof.
  split; [reflexivity|]. split; [reflexivity|].
  pose proof (header_segment_size_page_multiple 64 4 128 128) as [Hdiv Hge].
  split; [exact Hdiv|]. apply Hge. vm_compute. discriminate.
Defined.

(** The claim as stated fails where the raw size is within a page of [2^32]:
    rounding up wraps to 0. *)
Lemma header_segment_size_wraps :
  raw_header_size 64 0 (2 ^ 32 - 65) 128 = 2 ^ 32 - 1 /\
  header_segment_size 64 0 (2 ^ 32 - 65) 128 = 0 /\
  ~ (raw_header_size 64 0 (2 ^ 32 - 65) 128
     <= header_segment_size 64 0 (2 ^ 32 - 65) 128).
Proof.
  split; [reflexivity|]. split; [reflexivity|]. vm_compute. intros H. apply H. reflexivity.
Qed.

(** C8, amended: for 32-bit [B] and [H]: if [H > 0] then [data_segment_size B H]
    is a multiple of [H], and it is at least [B] whenever [B + H <= 2^32], so
    that [B + H - 1] stays within 32 bits; if [H = 0] it equals [B]. *)
Theorem data_segment_size_hugepage_multiple (B H : Z) :
  uint32 B -> uint32 H ->
  (0 < H -> (H | data_segment_size B H) /\
            (B + H <= 2 ^ 32 -> B <= data_segment_size B H)) /\
  (H = 0 -> data_segment_size B H = B).
Proof.
  unfold uint32. intros HB HH. split.
  - intros Hpos. unfold data_segment_size.
    replace (H =? 0) with false by (symmetry; apply Z.eqb_neq; lia).
    rewrite wrap32_pred_wrap32.
    pose proof (wrap32_range (B + H - 1)) as Ht.
    destruct (round_down_32 (wrap32 (B + H - 1)) H Ht Hpos) as (Hw & Hdiv & Hbounds).
    split; [exact Hdiv|].
    intros Hfit. rewrite Hw.
    rewrite wrap32_small in Hbounds by lia.
    rewrite wrap32_small by lia. lia.
  - intros ->. reflexivity.
Qed.

Lemma data_segment_size_hugepage_multiple_witness :
  data_segment_size 3000000 HUGEPAGE_2MB = 4194304 /\
  (HUGEPAGE_2MB | data_segment_size 3000000 HUGEPAGE_2MB) /\
  3000000 <= data_segment_size 3000000 HUGEPAGE_2MB /\
  data_segment_size 1024 0 = 1024.
Proof.
  assert (HB : uint32 3000000) by (unfold uint32; lia).
  assert (HH : uint32 HUGEPAGE_2MB) by (unfold uint32, HUGEPAGE_2MB; lia).
  assert (HB' : uint32 1024) by (unfold uint32; lia).
  assert (H0 : uint32 0) by (unfold uint32; lia).
  assert (Hpos : 0 < HUGEPAGE_2MB) by (unfold HUGEPAGE_2MB; lia).
  assert (Hfit : 3000000 + HUGEPAGE_2MB <= 2 ^ 32) by (unfold HUGEPAGE_2MB; lia).
  split; [reflexivity|].
  pose proof (proj1 (data_segment_size_hugepage_multiple _ _ HB HH) Hpos) as [Hdiv Hge].
  split; [exact Hdiv|]. split; [exact (Hge Hfit)|].
  exact (proj2 (data_segment_size_hugepage_multiple 1024 0 HB' H0) eq_refl).
Defined.

(** The claim as stated fails where [B + H - 1] exceeds 32 bits. *)
Lemma data_segment_size_wraps :
  data_segment_size (2 ^ 32 - 1) 2 = 0 /\
  ~ (2 ^ 32 - 1 <= data_segment_size (2 ^ 32 - 1) 2).
Proof.
  split; [reflexivity|]. vm_compute. intros H. apply H. reflexivity.
Qed.

(** ** The metadata codec *)

Lemma bind_returns {A B} (o : outcome A) (k : A -> outcome B) b :
  bind o k = Returns b -> exists a, o = Returns a /\ k a = Returns b.
Proof. destruct o as [a| |]; cbn; intros H; [eauto|discriminate|discriminate]. Qed.

(** What a returning [metadata_init] leaves in the record. *)
Lemma metadata_init_inv meta mc es bs po co hs m' :
  metadata_init meta mc es bs po co hs = Returns m' ->
  exists le lb lh,
    (if es =? 0 then le = 0 else size_to_log2 es = Returns le) /\
    size_to_log2 bs = Returns lb /\ size_to_log2 hs = Returns lh /\
    m' = mk_metadata METADATA_MAGIC METADATA_VERSION mc es 0 bs po co hs
           (wrap32 (bs - 1)) le lb lh (fill (padding meta) 0).
Proof.
  unfold metadata_init. intros H.
  apply bind_returns in H. destruct H as (le & Hle & H).
  apply bind_returns in H. destruct H as (lb & Hlb & H).
  apply bind_returns in H. destruct H as (lh & Hlh & H).
  exists le, lb, lh. injection H as <-.
  repeat (split; [try assumption|]); [|reflexivity].
  destruct (es =? 0); cbn in Hle; [congruence|assumption].
Qed.

(** [metadata_init] returns whenever the three sizes are at most [2^31]. *)
Lemma metadata_init_returns meta mc es bs po co hs :
  es <= 2 ^ 31 -> bs <= 2 ^ 31 -> hs <= 2 ^ 31 ->
  exists m', metadata_init meta mc es bs po co hs = Returns m'.
Proof.
  intros Hes Hbs Hhs. unfold metadata_init.
  destruct (size_to_log2_returns es Hes) as (le & Hle & _).
  destruct (size_to_log2_returns bs Hbs) as (lb & Hlb & _).
  destruct (size_to_log2_returns hs Hhs) as (lh & Hlh & _).
  rewrite Hlb, Hlh. destruct (es =? 0); cbn [negb]; [|rewrite Hle]; cbn [bind]; eauto.
Qed.

Lemma size_to_log2_ceil size e :
  size <= 2 ^ 31 -> size_to_log2 size = Returns e -> 0 <= e <= 31 /\ ceil_log2 size e.
Proof.
  intros Hsz He. destruct (size_to_log2_returns size Hsz) as (e' & He' & Hr & Hc).
  rewrite He in He'. injection He' as ->. split; assumption.
Qed.

Lemma size_to_log2_returns_bound size e :
  size_to_log2 size = Returns e -> size <= 2 ^ 31.
Proof.
  intros He. destruct (Z_le_gt_dec size (2 ^ 31)) as [|Hbig]; [assumption|exfalso].
  apply (size_to_log2_loop_no_return size_to_log2_fuel 0 size e); [lia|lia|exact He].
Qed.

Lemma size_to_log2_is_log2 size e :
  uint32 size -> pow2 size -> size_to_log2 size = Returns e -> is_log2 size e.
Proof.
  intros Hsz (k & Hk & Hp) He.
  pose proof (pow2_uint32_exponent _ _ Hsz Hk Hp) as Hk31. subst size.
  rewrite size_to_log2_pow2 in He by lia. injection He as <-.
  split; [assumption|reflexivity].
Qed.

Lemma pow2_le_2_31 x : uint32 x -> pow2 x -> 1 <= x <= 2 ^ 31.
Proof.
  intros Hx (k & Hk & Hp).
  pose proof (pow2_uint32_exponent _ _ Hx Hk Hp) as Hk31. subst x.
  pose proof (pow2_le_31 k ltac:(lia)). lia.
Qed.

Lemma uint16_le_2_31 x : uint16 x -> 0 <= x <= 2 ^ 31.
Proof. unfold uint16. lia. Qed.

Lemma uint16_uint32 x : uint16 x -> uint32 x.
Proof. unfold uint16, uint32. lia. Qed.

Lemma fill_zero arr : Forall (fun b => b = 0) (fill arr 0) /\ length (fill arr 0) = length arr.
Proof.
  unfold fill. split; [|apply length_map].
  apply Forall_forall. intros b Hb. apply in_map_iff in Hb.
  destruct Hb as (_ & <- & _). reflexivity.
Qed.

(** The round trip as far as it holds on the code: for every [max_consumers],
    every power-of-two [buffer_size], every [event_size] that is zero or a
    power of two, and every [header_size] of at most [2^31], [metadata_init]
    returns a record on which [metadata_validate] is true, with
    [index_mask = buffer_size - 1], [buffer_size_log2] the exact log2,
    [event_size_log2] the exact log2 (0 for [event_size = 0]),
    [producer_pid = 0] and all padding bytes 0; [header_size_log2] is the
    least [e] with [2^e >= header_size], which is the exact log2 only when
    [header_size] is a power of two. *)
Theorem metadata_init_validate_roundtrip
    (meta : metadata) (mc es bs po co hs : Z) :
  uint16 es -> es = 0 \/ pow2 es ->
  uint32 bs -> pow2 bs ->
  0 <= hs <= 2 ^ 31 ->
  exists m',
    metadata_init meta mc es bs po co hs = Returns m' /\
    metadata_validate m' = true /\
    index_mask m' = bs - 1 /\
    is_log2 bs (buffer_size_log2 m') /\
    (es <> 0 -> is_log2 es (event_size_log2 m')) /\
    (es = 0 -> event_size_log2 m' = 0) /\
    ceil_log2 hs (header_size_log2 m') /\
    (pow2 hs -> is_log2 hs (header_size_log2 m')) /\
    producer_pid m' = 0 /\
    Forall (fun b => b = 0) (padding m') /\
    length (padding m') = length (padding meta).
Proof.
  intros Hes Hesp Hbs Hbsp Hhs.
  pose proof (pow2_le_2_31 bs Hbs Hbsp) as Hbs31.
  pose proof (uint16_le_2_31 es Hes) as Hes31.
  destruct (metadata_init_returns meta mc es bs po co hs) as (m' & Hm'); try lia.
  exists m'. split; [assumption|].
  destruct (metadata_init_inv _ _ _ _ _ _ _ _ Hm') as (le & lb & lh & Hle & Hlb & Hlh & ->).
  cbn [magic version index_mask buffer_size_log2 event_size_log2
       header_size_log2 producer_pid padding].
  split; [reflexivity|].
  split; [apply wrap32_small; unfold uint32 in Hbs; lia|].
  split; [apply size_to_log2_is_log2; assumption|].
  split.
  { intros Hnz. destruct Hesp as [->|Hp]; [contradiction|].
    replace (es =? 0) with false in Hle by (symmetry; apply Z.eqb_neq; assumption).
    apply size_to_log2_is_log2; [apply uint16_uint32| |]; assumption. }
  split; [intros ->; exact Hle|].
  split; [apply size_to_log2_ceil; [lia|assumption]|].
  split.
  { intros Hp. apply size_to_log2_is_log2; [unfold uint32; lia|assumption|assumption]. }
  split; [reflexivity|]. apply fill_zero.
Qed.

Lemma metadata_init_validate_roundtrip_witness :
  exists m',
    metadata_init (zero_metadata 64) 4 64 1024 64 192 4096 = Returns m' /\
    metadata_validate m' = true /\
    index_mask m' = 1024 - 1 /\
    is_log2 1024 (buffer_size_log2 m') /\
    (64 <> 0 -> is_log2 64 (event_size_log2 m')) /\
    (64 = 0 -> event_size_log2 m' = 0) /\
    ceil_log2 4096 (header_size_log2 m') /\
    (pow2 4096 -> is_log2 4096 (header_size_log2 m')) /\
    producer_pid m' = 0 /\
    Forall (fun b => b = 0) (padding m') /\
    length (padding m') = length (padding (zero_metadata 64)).
Proof.
  apply (metadata_init_validate_roundtrip (zero_metadata 64) 4 64 1024 64 192 4096).
  - unfold uint16; lia.
  - right. exists 6. split; [lia|reflexivity].
  - unfold uint32; lia.
  - exists 10. split; [lia|reflexivity].
  - lia.
Defined.

(** C1: the round trip breaks on [header_size_log2].  With the default layout
    and 63 consumers on a 64-byte cache line, [header_segment_size] gives a
    header of three pages, 12288 bytes; [metadata_init] on it returns a record
    that [metadata_validate] accepts and on which every other derived field
    is exact, but [size_to_log2], which asks for a power of two,
    is handed 12288 and rounds up: [header_size_log2] is 14, and [2^14] is not
    the header size, so the field is not [log2(header_size)]. *)
Lemma metadata_init_header_size_log2_rounds_up :
  header_segment_size 64 63 128 128 = 12288 /\
  exists m',
    metadata_init (zero_metadata 64) 63 64 1024 64 192 12288 = Returns m' /\
    metadata_validate m' = true /\
    index_mask m' = 1024 - 1 /\
    is_log2 1024 (buffer_size_log2 m') /\
    is_log2 64 (event_size_log2 m') /\
    producer_pid m' = 0 /\
    Forall (fun b => b = 0) (padding m') /\
    header_size m' = 12288 /\
    header_size_log2 m' = 14 /\
    ~ is_log2 (header_size m') (header_size_log2 m').
Proof.
  split; [reflexivity|]. eexists. split; [reflexivity|].
  split; [reflexivity|]. split; [reflexivity|].
  split; [split; [cbn; lia|reflexivity]|].
  split; [split; [cbn; lia|reflexivity]|].
  split; [reflexivity|].
  split; [apply fill_zero|].
  split; [reflexivity|]. split; [reflexivity|].
  cbn [header_size header_size_log2]. intros [_ H]. discriminate H.
Qed.

(** C3, amended: [metadata_init] performs no argument check and has no
    failure result.  For every 16-bit [event_size] and every [buffer_size] and
    [header_size] of at most [2^31], power of two or not, it returns normally;
    the record holds [event_size] and [buffer_size] as given,
    [index_mask = (buffer_size - 1) mod 2^32], and log2 fields rounded up to the
    least sufficient exponent; it passes [metadata_validate], and
    [validate_sizes] on it is true exactly when [buffer_size] is a power of
    two.  The other arguments are stored as given as well, [producer_pid] is
    0, and each of the three log2 fields, [header_size_log2] included, is the
    least exponent for its size, which is 0 for an [event_size] of 0. *)
Theorem metadata_init_performs_no_argument_check
    (meta : metadata) (mc es bs po co hs : Z) :
  uint16 es -> 0 <= bs <= 2 ^ 31 -> 0 <= hs <= 2 ^ 31 ->
  exists m',
    metadata_init meta mc es bs po co hs = Returns m' /\
    event_size m' = es /\ buffer_size m' = bs /\
    index_mask m' = wrap32 (bs - 1) /\
    ceil_log2 bs (buffer_size_log2 m') /\
    (es <> 0 -> ceil_log2 es (event_size_log2 m')) /\
    metadata_validate m' = true /\
    validate_sizes m' = is_power_of_2 bs /\
    max_consumers m' = mc /\ producer_pid m' = 0 /\
    producer_offset m' = po /\ consumer_0_offset m' = co /\
    header_size m' = hs /\
    ceil_log2 hs (header_size_log2 m') /\
    ceil_log2 es (event_size_log2 m') /\
    (es = 0 -> event_size_log2 m' = 0).
Proof.
  intros Hes Hbs Hhs.
  pose proof (uint16_le_2_31 es Hes) as Hes31.
  destruct (metadata_init_returns meta mc es bs po co hs) as (m' & Hm'); try lia.
  exists m'. split; [assumption|].
  destruct (metadata_init_inv _ _ _ _ _ _ _ _ Hm') as (le & lb & lh & Hle & Hlb & Hlh & ->).
  assert (Hce : ceil_log2 es le).
  { destruct (es =? 0) eqn:Hz.
    - apply Z.eqb_eq in Hz. subst es le. unfold ceil_log2.
      split; [lia|]. split; [cbn; lia|]. intros e' He'. lia.
    - apply size_to_log2_ceil; [lia|assumption]. }
  unfold validate_sizes.
  cbn [magic version max_consumers event_size producer_pid buffer_size
       producer_offset consumer_0_offset header_size index_mask
       buffer_size_log2 event_size_log2 header_size_log2].
  split; [reflexivity|]. split; [reflexivity|]. split; [reflexivity|].
  split; [apply size_to_log2_ceil; [lia|assumption]|].
  split; [intros _; exact Hce|].
  split; [reflexivity|].
  split; [rewrite Z.eqb_refl; apply andb_true_r|].
  do 5 (split; [reflexivity|]).
  split; [apply size_to_log2_ceil; [lia|assumption]|].
  split; [exact Hce|].
  intros ->. exact Hle.
Qed.

Lemma metadata_init_performs_no_argument_check_witness :
  exists m',
    metadata_init (zero_metadata 64) 4 48 1000 64 192 12288 = Returns m' /\
    event_size m' = 48 /\ buffer_size m' = 1000 /\
    index_mask m' = wrap32 (1000 - 1) /\
    ceil_log2 1000 (buffer_size_log2 m') /\
    (48 <> 0 -> ceil_log2 48 (event_size_log2 m')) /\
    metadata_validate m' = true /\
    validate_sizes m' = is_power_of_2 1000 /\
    max_consumers m' = 4 /\ producer_pid m' = 0 /\
    producer_offset m' = 64 /\ consumer_0_offset m' = 192 /\
    header_size m' = 12288 /\
    ceil_log2 12288 (header_size_log2 m') /\
    ceil_log2 48 (event_size_log2 m') /\
    (48 = 0 -> event_size_log2 m' = 0).
Proof.
  apply (metadata_init_performs_no_argument_check (zero_metadata 64) 4 48 1000 64 192 12288).
  - unfold uint16; lia.
  - lia.
  - lia.
Defined.

(** A [buffer_size] of 3 and an [event_size] of 48 are accepted: the call
    returns a record that holds them. *)
Lemma metadata_init_accepts_non_power_of_2 :
  is_power_of_2 3 = false /\ is_power_of_2 48 = false /\
  exists m',
    metadata_init (zero_metadata 64) 4 48 3 64 192 4096 = Returns m' /\
    buffer_size m' = 3 /\ index_mask m' = 2 /\ buffer_size_log2 m' = 2 /\
    event_size m' = 48 /\ event_size_log2 m' = 6 /\
    metadata_validate m' = true.
Proof.
  split; [reflexivity|]. split; [reflexivity|].
  eexists. split; [reflexivity|]. repeat (split; [reflexivity|]). reflexivity.
Qed.

(** ** Slot offsets *)

Lemma shl32_mul index j :
  0 <= j <= 31 -> shl32 index j = Returns (wrap32 (index * 2 ^ j)).
Proof.
  intros Hj. unfold shl32.
  replace ((0 <=? j) && (j <? 32)) with true by (symmetry; apply andb_true_iff; lia).
  now rewrite Z.shiftl_mul_pow2 by lia.
Qed.

(** C4, amended: for every record produced by [metadata_init] from an
    [event_size] that is a nonzero power of two, and every index in
    [[0, buffer_size)], [event_offset meta index] is [index * event_size]
    reduced modulo [2^32], hence the exact product whenever that product is
    below [2^32]; for a record produced from [event_size = 0] the shift count
    is 0 and [event_offset meta index] is [index] itself. *)
Theorem event_offset_is_shifted_index
    (meta m' : metadata) (mc es bs po co hs index : Z) :
  metadata_init meta mc es bs po co hs = Returns m' ->
  uint16 es -> es = 0 \/ pow2 es ->
  0 <= index < bs ->
  (es <> 0 ->
   event_offset m' index = Returns (wrap32 (index * es)) /\
   (index * es < 2 ^ 32 -> event_offset m' index = Returns (index * es))) /\
  (es = 0 -> event_offset m' index = Returns index).
Proof.
  intros Hm' Hes Hesp Hidx.
  destruct (metadata_init_inv _ _ _ _ _ _ _ _ Hm') as (le & lb & lh & Hle & Hlb & Hlh & ->).
  unfold event_offset. cbn [event_size_log2].
  pose proof (size_to_log2_returns_bound bs lb Hlb) as Hbs31.
  split.
  - intros Hnz. destruct Hesp as [->|Hp]; [contradiction|].
    replace (es =? 0) with false in Hle by (symmetry; apply Z.eqb_neq; assumption).
    destruct (size_to_log2_is_log2 es le (uint16_uint32 es Hes) Hp Hle) as [Hle0 Hpow].
    assert (Hle31 : le <= 31)
      by (eapply pow2_uint32_exponent; [apply uint16_uint32|..]; eassumption).
    rewrite shl32_mul by lia. rewrite <- Hpow.
    split; [reflexivity|].
    intros Hfit. rewrite wrap32_small; [reflexivity|]. unfold uint16 in Hes. nia.
  - intros ->. cbn in Hle. subst le. rewrite shl32_mul by lia.
    rewrite Z.pow_0_r, Z.mul_1_r, wrap32_small; [reflexivity|lia].
Qed.

Lemma event_offset_is_shifted_index_witness :
  let m' := mk_metadata METADATA_MAGIC METADATA_VERSION 4 64 0 1024 64 192 4096
              1023 6 10 12 (fill (padding (zero_metadata 64)) 0) in
  metadata_init (zero_metadata 64) 4 64 1024 64 192 4096 = Returns m' /\
  event_offset m' 1023 = Returns (1023 * 64).
Proof.
  intros m'.
  assert (Hinit : metadata_init (zero_metadata 64) 4 64 1024 64 192 4096 = Returns m')
    by reflexivity.
  assert (Hes : uint16 64) by (unfold uint16; lia).
  assert (Hp : 64 = 0 \/ pow2 64) by (right; exists 6; split; [lia|reflexivity]).
  assert (Hidx : 0 <= 1023 < 1024) by lia.
  assert (Hnz : 64 <> 0) by lia.
  assert (Hfit : 1023 * 64 < 2 ^ 32) by lia.
  split; [exact Hinit|].
  exact (proj2 (proj1 (event_offset_is_shifted_index _ _ _ _ _ _ _ _ _
                         Hinit Hes Hp Hidx) Hnz) Hfit).
Defined.

(** The two cases the claim singles out both fail: with [event_size = 0] the
    offset of slot 1 is 1, not 0; and with [event_size = 2^15] and
    [buffer_size = 2^31] the offset of the last slot is the product reduced
    modulo [2^32]. *)
Lemma event_offset_differs_from_product :
  (exists m',
     metadata_init (zero_metadata 64) 4 0 1024 64 192 4096 = Returns m' /\
     event_offset m' 1 = Returns 1 /\
     event_offset m' 1 <> Returns (1 * event_size m')) /\
  (exists m',
     metadata_init (zero_metadata 64) 4 32768 (2 ^ 31) 64 192 4096 = Returns m' /\
     event_offset m' (2 ^ 31 - 1) = Returns 4294934528 /\
     event_offset m' (2 ^ 31 - 1) <> Returns ((2 ^ 31 - 1) * event_size m')).
Proof.
  split; eexists; (split; [reflexivity|]); (split; [reflexivity|]); discriminate.
Qed.

(** ** Release operations of the platform policy *)

(** On a live mapping [unmap] issues exactly one [munmap] and returns. *)
Lemma unmap_valid ptr size :
  ptr <> policies.nullptr -> ptr <> policies.MAP_FAILED ->
  policies.unmap ptr size =
  ITree.bind (ITree.trigger (policies.sys_munmap ptr size)) (fun _ => Ret tt).
Proof.
  intros H0 H1. unfold policies.unmap.
  replace (ptr =? policies.nullptr) with false by (symmetry; apply Z.eqb_neq; assumption).
  replace (ptr =? policies.MAP_FAILED) with false by (symmetry; apply Z.eqb_neq; assumption).
  reflexivity.
Qed.

(** On an open descriptor [close_fd] issues exactly one [close] and returns. *)
Lemma close_fd_valid fd :
  0 <= fd ->
  policies.close_fd fd =
  ITree.bind (ITree.trigger (policies.sys_close fd)) (fun _ => Ret tt).
Proof.
  intros H. unfold policies.close_fd.
  replace (0 <=? fd) with true by (symmetry; apply Z.leb_le; assumption).
  reflexivity.
Qed.

(** C9: the release operations are no-ops on invalid handles: for every size,
    [unmap] on the null address is the tree that returns at once, with no
    [munmap] event; [close_fd] on a negative descriptor is the tree that
    returns at once, with no [close] event. *)
Theorem release_noop_on_invalid_handle (size fd : Z) :
  fd < 0 ->
  policies.unmap policies.nullptr size = Ret tt /\
  policies.close_fd fd = Ret tt.
Proof.
  intros Hfd. split.
  - reflexivity.
  - unfold policies.close_fd.
    replace (0 <=? fd) with false by (symmetry; apply Z.leb_gt; assumption).
    reflexivity.
Qed.

Lemma release_noop_on_invalid_handle_witness :
  -1 < 0 /\
  policies.unmap policies.nullptr 4096 = Ret tt /\
  policies.close_fd (-1) = Ret tt.
Proof.
  assert (H : -1 < 0) by lia.
  split; [exact H|]. exact (release_noop_on_invalid_handle 4096 (-1) H).
Defined.

(** ** The default layout *)

Section DefaultLayout.

Variable CACHE_LINE : Z.
Hypothesis CACHE_LINE_64_or_128 : CACHE_LINE_ok CACHE_LINE.

Lemma default_section_sizes :
  DEFAULT_PRODUCER_SECTION_SIZE CACHE_LINE = 2 * CACHE_LINE /\
  DEFAULT_CONSUMER_SECTION_SIZE CACHE_LINE = 2 * CACHE_LINE.
Proof.
  unfold DEFAULT_PRODUCER_SECTION_SIZE, DEFAULT_CONSUMER_SECTION_SIZE.
  destruct CACHE_LINE_64_or_128 as [-> | ->]; split; reflexivity.
Qed.

Lemma default_offsets :
  default_producer_offset CACHE_LINE = CACHE_LINE /\
  default_consumer_0_offset CACHE_LINE (DEFAULT_PRODUCER_SECTION_SIZE CACHE_LINE)
  = 3 * CACHE_LINE.
Proof.
  destruct default_section_sizes as [-> _].
  unfold default_producer_offset, default_consumer_0_offset.
  destruct CACHE_LINE_64_or_128 as [-> | ->]; split; reflexivity.
Qed.

Lemma default_raw_header_size mc :
  0 <= mc <= 255 ->
  raw_header_size CACHE_LINE mc
    (DEFAULT_PRODUCER_SECTION_SIZE CACHE_LINE)
    (DEFAULT_CONSUMER_SECTION_SIZE CACHE_LINE)
  = 3 * CACHE_LINE + mc * (2 * CACHE_LINE).
Proof.
  intros Hmc. destruct default_section_sizes as [-> ->]. unfold raw_header_size.
  assert (Hcl : 64 <= CACHE_LINE <= 128)
    by (destruct CACHE_LINE_64_or_128 as [-> | ->]; lia).
  rewrite (wrap32_small (mc * _)) by nia. rewrite wrap32_small by nia. lia.
Qed.

(** The invariants that do hold of a default-layout record, for every
    [max_consumers >= 1], 16-bit [event_size] and power-of-two [buffer_size]:
    the record holds the arguments of the call; it has the format's magic and
    version, [index_mask = buffer_size - 1] and [buffer_size_log2] the exact
    log2 of the [buffer_size] passed; [consumer_0_offset > producer_offset > 0];
    [header_size] is [header_segment_size max_consumers], a multiple of the
    page size and at least
    [consumer_0_offset + max_consumers * consumer_section_size meta].
    [header_size_log2] is only the least [e] with [2^e >= header_size]. *)
Theorem default_layout_metadata_invariants (meta : metadata) (mc es bs : Z) :
  1 <= mc <= 255 -> uint16 es -> uint32 bs -> pow2 bs ->
  exists m' css,
    metadata_init meta mc es bs
      (default_producer_offset CACHE_LINE)
      (default_consumer_0_offset CACHE_LINE
         (DEFAULT_PRODUCER_SECTION_SIZE CACHE_LINE))
      (header_segment_size CACHE_LINE mc
         (DEFAULT_PRODUCER_SECTION_SIZE CACHE_LINE)
         (DEFAULT_CONSUMER_SECTION_SIZE CACHE_LINE)) = Returns m' /\
    consumer_section_size CACHE_LINE m' = Returns css /\
    magic m' = METADATA_MAGIC /\ version m' = METADATA_VERSION /\
    index_mask m' = buffer_size m' - 1 /\
    0 < producer_offset m' < consumer_0_offset m' /\
    (PAGE_SIZE | header_size m') /\
    consumer_0_offset m' + max_consumers m' * css <= header_size m' /\
    max_consumers m' = mc /\ event_size m' = es /\ buffer_size m' = bs /\
    is_log2 bs (buffer_size_log2 m') /\
    producer_offset m' = default_producer_offset CACHE_LINE /\
    consumer_0_offset m'
    = default_consumer_0_offset CACHE_LINE
        (DEFAULT_PRODUCER_SECTION_SIZE CACHE_LINE) /\
    header_size m'
    = header_segment_size CACHE_LINE mc
        (DEFAULT_PRODUCER_SECTION_SIZE CACHE_LINE)
        (DEFAULT_CONSUMER_SECTION_SIZE CACHE_LINE) /\
    css = DEFAULT_CONSUMER_SECTION_SIZE CACHE_LINE /\
    ceil_log2 (header_size m') (header_size_log2 m').
Proof.
  intros Hmc Hes Hbs Hbsp.
  pose proof (pow2_le_2_31 bs Hbs Hbsp) as Hbs31.
  pose proof (uint16_le_2_31 es Hes) as Hes31.
  pose proof (default_raw_header_size mc ltac:(lia)) as Hraw.
  destruct default_offsets as [Hpo Hco].
  destruct default_section_sizes as [_ Hdc].
  assert (Hcl : 64 <= CACHE_LINE <= 128)
    by (destruct CACHE_LINE_64_or_128 as [-> | ->]; lia).
  destruct (header_segment_size_round_up CACHE_LINE mc
              (DEFAULT_PRODUCER_SECTION_SIZE CACHE_LINE)
              (DEFAULT_CONSUMER_SECTION_SIZE CACHE_LINE)) as [Hdiv Hge].
  rewrite Hraw in Hge. unfold PAGE_SIZE in Hge.
  specialize (Hge ltac:(nia)).
  assert (Hhs : header_segment_size CACHE_LINE mc
                  (DEFAULT_PRODUCER_SECTION_SIZE CACHE_LINE)
                  (DEFAULT_CONSUMER_SECTION_SIZE CACHE_LINE) <= 2 ^ 31) by nia.
  destruct (metadata_init_returns meta mc es bs
              (default_producer_offset CACHE_LINE)
              (default_consumer_0_offset CACHE_LINE
                 (DEFAULT_PRODUCER_SECTION_SIZE CACHE_LINE))
              (header_segment_size CACHE_LINE mc
                 (DEFAULT_PRODUCER_SECTION_SIZE CACHE_LINE)
                 (DEFAULT_CONSUMER_SECTION_SIZE CACHE_LINE)))
    as (m' & Hm'); try lia.
  destruct (metadata_init_inv _ _ _ _ _ _ _ _ Hm') as (le & lb & lh & _ & Hlb & Hlh & Hrec).
  exists m', (2 * CACHE_LINE). split; [assumption|]. subst m'.
  unfold consumer_section_size.
  cbn [magic version max_consumers event_size buffer_size index_mask
       producer_offset consumer_0_offset header_size buffer_size_log2
       header_size_log2].
  split.
  { rewrite Hco. replace (mc =? 0) with false by (symmetry; apply Z.eqb_neq; lia).
    rewrite Hraw. f_equal.
    replace (3 * CACHE_LINE + mc * (2 * CACHE_LINE) - 3 * CACHE_LINE)
      with (2 * CACHE_LINE * mc) by lia.
    rewrite wrap32_small by nia. apply Z.div_mul. lia. }
  split; [reflexivity|]. split; [reflexivity|].
  split; [apply wrap32_small; unfold uint32 in Hbs; lia|].
  split; [rewrite Hpo, Hco; lia|]. split; [exact Hdiv|].
  split; [rewrite Hco; lia|].
  do 3 (split; [reflexivity|]).
  split; [apply size_to_log2_is_log2; assumption|].
  do 3 (split; [reflexivity|]).
  split; [symmetry; exact Hdc|].
  apply size_to_log2_ceil; [lia|exact Hlh].
Qed.

End DefaultLayout.

Lemma default_layout_metadata_invariants_witness :
  exists m' css,
    metadata_init (zero_metadata 64) 4 64 1024
      (default_producer_offset 64)
      (default_consumer_0_offset 64 (DEFAULT_PRODUCER_SECTION_SIZE 64))
      (header_segment_size 64 4 (DEFAULT_PRODUCER_SECTION_SIZE 64)
         (DEFAULT_CONSUMER_SECTION_SIZE 64)) = Returns m' /\
    consumer_section_size 64 m' = Returns css /\
    magic m' = METADATA_MAGIC /\ version m' = METADATA_VERSION /\
    index_mask m' = buffer_size m' - 1 /\
    0 < producer_offset m' < consumer_0_offset m' /\
    (PAGE_SIZE | header_size m') /\
    consumer_0_offset m' + max_consumers m' * css <= header_size m' /\
    max_consumers m' = 4 /\ event_size m' = 64 /\ buffer_size m' = 1024 /\
    is_log2 1024 (buffer_size_log2 m') /\
    producer_offset m' = default_producer_offset 64 /\
    consumer_0_offset m'
    = default_consumer_0_offset 64 (DEFAULT_PRODUCER_SECTION_SIZE 64) /\
    header_size m'
    = header_segment_size 64 4 (DEFAULT_PRODUCER_SECTION_SIZE 64)
        (DEFAULT_CONSUMER_SECTION_SIZE 64) /\
    css = DEFAULT_CONSUMER_SECTION_SIZE 64 /\
    ceil_log2 (header_size m') (header_size_log2 m').
Proof.
  apply (default_layout_metadata_invariants 64 (or_introl eq_refl)
           (zero_metadata 64) 4 64 1024).
  - lia.
  - unfold uint16; lia.
  - unfold uint32; lia.
  - exists 10. split; [lia|reflexivity].
Defined.


(** ** The record stays within its memory layout *)

Lemma size_to_log2_uint8 size e : size_to_log2 size = Returns e -> uint8 e.
Proof.
  intros He. pose proof (size_to_log2_returns_bound size e He) as Hb.
  destruct (size_to_log2_ceil size e Hb He) as [Hr _]. unfold uint8. lia.
Qed.

(** X14: [metadata_init] on typed arguments leaves a record whose fields fit
    their types and whose padding keeps its
    [CACHE_LINE - METADATA_FIXED_SIZE] bytes. *)
Lemma metadata_init_wf CACHE_LINE meta mc es bs po co hs m' :
  metadata_wf CACHE_LINE meta ->
  uint8 mc -> uint16 es -> uint32 bs -> uint32 po -> uint32 co -> uint32 hs ->
  metadata_init meta mc es bs po co hs = Returns m' ->
  metadata_wf CACHE_LINE m'.
Proof.
  intros Hwf Hmc Hes Hbs Hpo Hco Hhs Hm'.
  destruct (metadata_init_inv _ _ _ _ _ _ _ _ Hm') as (le & lb & lh & Hle & Hlb & Hlh & ->).
  destruct Hwf as (_ & _ & _ & _ & _ & _ & _ & _ & _ & _ & _ & _ & _ & _ & Hlen).
  destruct (fill_zero (padding meta)) as [Hz Hl].
  unfold metadata_wf.
  cbn [magic version max_consumers event_size producer_pid buffer_size
       producer_offset consumer_0_offset header_size index_mask
       event_size_log2 buffer_size_log2 header_size_log2 padding].
  split; [unfold uint64, METADATA_MAGIC; lia|].
  split; [unfold uint8, METADATA_VERSION; lia|].
  do 2 (split; [assumption|]).
  split; [unfold uint32; lia|].
  do 4 (split; [assumption|]).
  split; [apply wrap32_range|].
  split.
  { destruct (es =? 0); [subst le; unfold uint8; lia|].
    eapply size_to_log2_uint8; eassumption. }
  do 2 (split; [eapply size_to_log2_uint8; eassumption|]).
  split.
  - eapply Forall_impl; [|exact Hz]. intros b ->. unfold uint8. lia.
  - rewrite Hl. exact Hlen.
Qed.

(** ** Scenarios *)

(** Four consumers, 64-byte events, 1024 slots, 64-byte cache line. *)
Example scenario_test1 :
  metadata_init (zero_metadata 64) 4 64 1024
    (default_producer_offset 64)
    (default_consumer_0_offset 64 (DEFAULT_PRODUCER_SECTION_SIZE 64))
    (header_segment_size 64 4 (DEFAULT_PRODUCER_SECTION_SIZE 64)
       (DEFAULT_CONSUMER_SECTION_SIZE 64))
  = Returns (mk_metadata METADATA_MAGIC METADATA_VERSION 4 64 0 1024 64 192 4096
               1023 6 10 12 (repeat 0 25)).
Proof. reflexivity. Qed.

(** A zero-filled segment is not a valid header. *)
Example scenario_zero_filled :
  metadata_validate (zero_metadata 64) = false /\
  metadata_validate (zero_metadata 128) = false.
Proof. split; reflexivity. Qed.

Example size_to_log2_PAGE_SIZE : size_to_log2 PAGE_SIZE = Returns PAGE_SIZE_LOG2.
Proof. reflexivity. Qed.

(** * Further properties of the layout *)

(** ** Powers of two: [size_to_log2], [log2_to_size], [is_power_of_2] *)

(** X1: for [1 <= x <= 2^31], [log2_to_size] of [size_to_log2 x] is a power of
    two [p] with [x <= p < 2x], the next power of two at or above [x]; it is
    [x] itself exactly when [is_power_of_2 x]. *)
Theorem size_to_log2_then_log2_to_size_rounds_up (x : Z) :
  1 <= x <= 2 ^ 31 ->
  exists e p,
    size_to_log2 x = Returns e /\ log2_to_size e = Returns p /\
    is_power_of_2 p = true /\ x <= p < 2 * x /\
    (p = x <-> is_power_of_2 x = true).
Proof.
  intros Hx.
  destruct (size_to_log2_returns x) as (e & He & Hr & Hc); [lia|].
  pose proof (pow2_le_31 e Hr) as Hp.
  exists e, (2 ^ e). split; [assumption|].
  split; [apply shl32_one; assumption|].
  split; [apply pow2_is_power_of_2; lia|].
  destruct Hc as (He0 & Hle & Hlow).
  split.
  { split; [assumption|].
    destruct (Z.eq_dec e 0) as [->|Hne]; [change (2 ^ 0) with 1; lia|].
    specialize (Hlow (e - 1) ltac:(lia)).
    replace e with (e - 1 + 1) by lia.
    rewrite Z.pow_add_r by lia. change (2 ^ 1) with 2. lia. }
  split.
  - intros <-. apply pow2_is_power_of_2; lia.
  - intros Hpow. apply is_power_of_2_pow2 in Hpow; [|unfold uint32; lia].
    destruct Hpow as (k & Hk & ->).
    assert (Hk31 : k <= 31)
      by (apply (pow2_uint32_exponent (2 ^ k)); [unfold uint32|..]; lia).
    rewrite size_to_log2_pow2 in He by lia. injection He as <-. reflexivity.
Qed.

Lemma size_to_log2_then_log2_to_size_rounds_up_witness :
  1 <= 1000 <= 2 ^ 31 /\
  exists e p,
    size_to_log2 1000 = Returns e /\ log2_to_size e = Returns p /\
    is_power_of_2 p = true /\ 1000 <= p < 2 * 1000 /\
    (p = 1000 <-> is_power_of_2 1000 = true).
Proof.
  assert (H : 1 <= 1000 <= 2 ^ 31) by lia.
  split; [exact H|]. exact (size_to_log2_then_log2_to_size_rounds_up 1000 H).
Defined.

(** X2: [log2_to_size k] is defined exactly for [k < 32]; its value is the
    power of two [2^k], which [is_power_of_2] accepts and [size_to_log2] maps
    back to [k]; for [k >= 32] the shift is undefined. *)
Theorem log2_to_size_inverted_by_size_to_log2 (k : Z) :
  0 <= k ->
  (k <= 31 ->
   log2_to_size k = Returns (2 ^ k) /\ is_power_of_2 (2 ^ k) = true /\
   size_to_log2 (2 ^ k) = Returns k) /\
  (32 <= k -> log2_to_size k = Undefined).
Proof.
  intros Hk. split.
  - intros Hk31. pose proof (pow2_le_31 k ltac:(lia)).
    split; [apply shl32_one; lia|].
    split; [apply pow2_is_power_of_2; lia|apply size_to_log2_pow2; lia].
  - intros Hbig. apply shl32_out_of_range. assumption.
Qed.

Lemma log2_to_size_inverted_by_size_to_log2_witness :
  (log2_to_size 12 = Returns (2 ^ 12) /\ is_power_of_2 (2 ^ 12) = true /\
   size_to_log2 (2 ^ 12) = Returns 12) /\
  log2_to_size 32 = Undefined.
Proof.
  split.
  - exact (proj1 (log2_to_size_inverted_by_size_to_log2 12 ltac:(lia)) ltac:(lia)).
  - exact (proj2 (log2_to_size_inverted_by_size_to_log2 32 ltac:(lia)) ltac:(lia)).
Defined.

(** X3: [size_to_log2] is monotone where it returns. *)
Theorem size_to_log2_monotone (x y ex ey : Z) :
  x <= y ->
  size_to_log2 x = Returns ex -> size_to_log2 y = Returns ey ->
  ex <= ey.
Proof.
  intros Hxy Hx Hy.
  pose proof (size_to_log2_returns_bound x ex Hx) as Bx.
  pose proof (size_to_log2_returns_bound y ey Hy) as By.
  destruct (size_to_log2_ceil x ex Bx Hx) as [Rx (_ & _ & Lx)].
  destruct (size_to_log2_ceil y ey By Hy) as [Ry (_ & Uy & _)].
  destruct (Z_le_gt_dec ex ey) as [|Hgt]; [assumption|exfalso].
  specialize (Lx ey ltac:(lia)). lia.
Qed.

Lemma size_to_log2_monotone_witness : 9 <= 14.
Proof.
  apply (size_to_log2_monotone 300 12288 9 14); [lia|reflexivity|reflexivity].
Defined.

(** ** [validate_sizes] and the index mask *)

(** X4: on a record with 32-bit fields, [validate_sizes] is true exactly when
    [buffer_size] is a power of two and [index_mask = buffer_size - 1]; a
    record it accepts makes [buffer_index] the remainder of the sequence
    number modulo [buffer_size]. *)
Theorem validate_sizes_makes_buffer_index_modulo (meta : metadata) :
  uint32 (buffer_size meta) -> uint32 (index_mask meta) ->
  (validate_sizes meta = true <->
   pow2 (buffer_size meta) /\ index_mask meta = buffer_size meta - 1) /\
  (validate_sizes meta = true ->
   forall sequence, uint64 sequence ->
     buffer_index meta sequence = sequence mod buffer_size meta).
Proof.
  intros Hbs Hmask.
  assert (Hiff : validate_sizes meta = true <->
                 pow2 (buffer_size meta) /\ index_mask meta = buffer_size meta - 1).
  { unfold validate_sizes. rewrite andb_true_iff, Z.eqb_eq. split.
    - intros [Hp Hm]. apply is_power_of_2_pow2 in Hp; [|assumption].
      split; [assumption|].
      pose proof (pow2_le_2_31 _ Hbs Hp).
      rewrite Hm. apply wrap32_small. unfold uint32 in Hbs. lia.
    - intros [Hp Hm]. pose proof (pow2_le_2_31 _ Hbs Hp).
      split.
      + destruct Hp as (k & Hk & Hp). rewrite Hp.
        apply pow2_is_power_of_2; [assumption|]. rewrite <- Hp. apply Hbs.
      + rewrite Hm. symmetry. apply wrap32_small. unfold uint32 in Hbs. lia. }
  split; [exact Hiff|].
  intros Hv sequence _. apply Hiff in Hv. destruct Hv as [(k & Hk & Hp) Hm].
  pose proof (pow2_uint32_exponent _ _ Hbs Hk Hp) as Hk31.
  rewrite (buffer_index_mod meta sequence k) by (assumption || lia).
  now rewrite Hp.
Qed.

Lemma validate_sizes_makes_buffer_index_modulo_witness :
  let meta := mk_metadata METADATA_MAGIC METADATA_VERSION 4 64 0 1024 64 192 4096
                1023 6 10 12 [] in
  validate_sizes meta = true /\ buffer_index meta 5000 = 5000 mod 1024.
Proof.
  intros meta.
  assert (Hbs : uint32 (buffer_size meta)) by (unfold uint32; simpl; lia).
  assert (Hm : uint32 (index_mask meta)) by (unfold uint32; simpl; lia).
  assert (Hs : uint64 5000) by (unfold uint64; lia).
  assert (Hv : validate_sizes meta = true) by reflexivity.
  split; [exact Hv|].
  exact (proj2 (validate_sizes_makes_buffer_index_modulo meta Hbs Hm) Hv 5000 Hs).
Defined.

(** ** Rounding is to the least multiple *)

Lemma multiple_below_next (n a b : Z) :
  0 < n -> (n | a) -> (n | b) -> a < b + n -> a <= b.
Proof.
  intros Hn [qa ->] [qb ->] Hlt.
  assert (Hq : qa < qb + 1) by (apply (Z.mul_lt_mono_pos_r n); lia).
  apply Z.mul_le_mono_nonneg_r; lia.
Qed.

(** X5: when the raw header size is at most [2^32 - PAGE_SIZE],
    [header_segment_size] is the least page multiple at or above it: it is a
    multiple of the page size, it is at least the raw size, and no page
    multiple at or above the raw size is smaller; a raw size that is already
    page-aligned is returned unchanged. *)
Theorem header_segment_size_least_page_multiple
    (CACHE_LINE max_consumers producer_section_size consumer_section_size : Z) :
  let raw := raw_header_size CACHE_LINE max_consumers
               producer_section_size consumer_section_size in
  let hss := header_segment_size CACHE_LINE max_consumers
               producer_section_size consumer_section_size in
  raw <= 2 ^ 32 - PAGE_SIZE ->
  (PAGE_SIZE | hss) /\ raw <= hss /\
  (forall m, (PAGE_SIZE | m) -> raw <= m -> hss <= m) /\
  ((PAGE_SIZE | raw) -> hss = raw).
Proof.
  intros raw hss Hfit.
  destruct (header_segment_size_round_up CACHE_LINE max_consumers
              producer_section_size consumer_section_size) as [Hdiv Hb].
  specialize (Hb Hfit). fold raw hss in Hdiv, Hb.
  assert (Hleast : forall m, (PAGE_SIZE | m) -> raw <= m -> hss <= m).
  { intros m Hm Hle. apply (multiple_below_next PAGE_SIZE); try assumption.
    - unfold PAGE_SIZE; lia.
    - lia. }
  split; [exact Hdiv|]. split; [lia|]. split; [exact Hleast|].
  intros Hal. specialize (Hleast raw Hal ltac:(lia)). lia.
Qed.

Lemma header_segment_size_least_page_multiple_witness :
  raw_header_size 64 63 128 128 = 8256 /\
  (PAGE_SIZE | header_segment_size 64 63 128 128) /\
  raw_header_size 64 63 128 128 <= header_segment_size 64 63 128 128 /\
  header_segment_size 64 63 128 128 <= 12288 /\
  header_segment_size 64 1 4032 4096 = raw_header_size 64 1 4032 4096.
Proof.
  split; [reflexivity|].
  assert (H1 : raw_header_size 64 63 128 128 <= 2 ^ 32 - PAGE_SIZE)
    by (vm_compute; discriminate).
  assert (H2 : raw_header_size 64 1 4032 4096 <= 2 ^ 32 - PAGE_SIZE)
    by (vm_compute; discriminate).
  pose proof (header_segment_size_least_page_multiple 64 63 128 128 H1)
    as (Hdiv & Hge & Hleast & _).
  split; [exact Hdiv|]. split; [exact Hge|]. split.
  - apply Hleast.
    + exists 3. reflexivity.
    + vm_compute. discriminate.
  - apply (proj2 (proj2 (proj2
             (header_segment_size_least_page_multiple 64 1 4032 4096 H2)))).
    exists 2. reflexivity.
Defined.

Lemma data_segment_size_round_up (B H : Z) :
  uint32 B -> uint32 H -> 0 < H -> B + H <= 2 ^ 32 ->
  (H | data_segment_size B H) /\ B <= data_segment_size B H < B + H.
Proof.
  unfold uint32. intros HB HH Hpos Hfit. unfold data_segment_size.
  replace (H =? 0) with false by (symmetry; apply Z.eqb_neq; lia).
  rewrite wrap32_pred_wrap32.
  pose proof (wrap32_range (B + H - 1)) as Ht.
  destruct (round_down_32 (wrap32 (B + H - 1)) H Ht Hpos) as (Hw & Hdiv & Hbounds).
  split; [exact Hdiv|].
  rewrite Hw. rewrite wrap32_small in Hbounds by lia.
  rewrite wrap32_small by lia. lia.
Qed.

(** X6: for 32-bit [B] and [H > 0] with [B + H <= 2^32],
    [data_segment_size B H] is the least multiple of [H] at or above [B]: it
    is a multiple of [H], it is at least [B], and no multiple of [H] at or
    above [B] is smaller. *)
Theorem data_segment_size_least_multiple (B H : Z) :
  uint32 B -> uint32 H -> 0 < H -> B + H <= 2 ^ 32 ->
  (H | data_segment_size B H) /\ B <= data_segment_size B H /\
  forall m, (H | m) -> B <= m -> data_segment_size B H <= m.
Proof.
  intros HB HH Hpos Hfit.
  destruct (data_segment_size_round_up B H HB HH Hpos Hfit) as [Hdiv Hb].
  split; [exact Hdiv|]. split; [lia|].
  intros m Hm Hle.
  apply (multiple_below_next H); try assumption. lia.
Qed.

Lemma data_segment_size_least_multiple_witness :
  (HUGEPAGE_2MB | data_segment_size 3000000 HUGEPAGE_2MB) /\
  3000000 <= data_segment_size 3000000 HUGEPAGE_2MB /\
  data_segment_size 3000000 HUGEPAGE_2MB <= 4194304.
Proof.
  assert (HB : uint32 3000000) by (unfold uint32; lia).
  assert (HH : uint32 HUGEPAGE_2MB) by (unfold uint32, HUGEPAGE_2MB; lia).
  assert (Hpos : 0 < HUGEPAGE_2MB) by (unfold HUGEPAGE_2MB; lia).
  assert (Hfit : 3000000 + HUGEPAGE_2MB <= 2 ^ 32) by (unfold HUGEPAGE_2MB; lia).
  pose proof (data_segment_size_least_multiple 3000000 HUGEPAGE_2MB HB HH Hpos Hfit)
    as (Hdiv & Hge & Hleast).
  split; [exact Hdiv|]. split; [exact Hge|].
  apply Hleast.
  - exists 2. reflexivity.
  - lia.
Defined.

(** X7: when the buffer size and the hugepage size are both 32-bit powers of
    two, as the ring buffer and the 2 MB and 1 GB hugepages are, the data
    segment is the larger of the two: a buffer smaller than a hugepage takes
    one hugepage, a larger one is already aligned. *)
Theorem data_segment_size_of_powers_of_2 (B H : Z) :
  uint32 B -> pow2 B -> uint32 H -> pow2 H ->
  data_segment_size B H = Z.max B H.
Proof.
  intros HB HBp HH HHp.
  pose proof (pow2_le_2_31 B HB HBp) as RB.
  pose proof (pow2_le_2_31 H HH HHp) as RH.
  destruct (data_segment_size_round_up B H HB HH) as [Hdiv Hb]; try lia.
  destruct HBp as (i & Hi & HBe). destruct HHp as (j & Hj & HHe).
  destruct (Z_le_gt_dec j i) as [Hji|Hij].
  - assert (HdB : (H | B)) by (rewrite HBe, HHe; apply pow2_divide_mono; lia).
    assert (Hge : H <= B) by (rewrite HBe, HHe; apply Z.pow_le_mono_r; lia).
    rewrite Z.max_l by lia.
    pose proof (multiple_below_next H (data_segment_size B H) B ltac:(lia) Hdiv HdB).
    lia.
  - assert (HBH : B < H) by (rewrite HBe, HHe; apply Z.pow_lt_mono_r; lia).
    rewrite Z.max_r by lia.
    pose proof (multiple_below_next H (data_segment_size B H) H ltac:(lia) Hdiv
                  (Z.divide_refl H)).
    assert (H <= data_segment_size B H); [|lia].
    apply Z.divide_pos_le; [lia|assumption].
Qed.

Lemma data_segment_size_of_powers_of_2_witness :
  data_segment_size 1024 HUGEPAGE_2MB = Z.max 1024 HUGEPAGE_2MB /\
  data_segment_size (2 ^ 31) HUGEPAGE_1GB = Z.max (2 ^ 31) HUGEPAGE_1GB.
Proof.
  split.
  - apply data_segment_size_of_powers_of_2.
    + unfold uint32; lia.
    + exists 10. split; [lia|reflexivity].
    + unfold uint32, HUGEPAGE_2MB; lia.
    + exists 21. split; [lia|reflexivity].
  - apply data_segment_size_of_powers_of_2.
    + unfold uint32; lia.
    + exists 31. split; [lia|reflexivity].
    + unfold uint32, HUGEPAGE_1GB; lia.
    + exists 30. split; [lia|reflexivity].
Defined.

(** ** Sections of a default-layout header *)

Section DefaultLayoutSections.

Variable CACHE_LINE : Z.
Hypothesis CACHE_LINE_64_or_128 : CACHE_LINE_ok CACHE_LINE.

(** The record that [metadata_init] leaves for the default layout. *)
Lemma default_layout_init (meta : metadata) (mc es bs : Z) :
  0 <= mc <= 255 -> uint16 es -> 0 <= bs <= 2 ^ 31 ->
  exists le lb lh hs,
    hs = header_segment_size CACHE_LINE mc
           (DEFAULT_PRODUCER_SECTION_SIZE CACHE_LINE)
           (DEFAULT_CONSUMER_SECTION_SIZE CACHE_LINE) /\
    3 * CACHE_LINE + mc * (2 * CACHE_LINE) <= hs < 2 ^ 31 /\
    metadata_init meta mc es bs
      (default_producer_offset CACHE_LINE)
      (default_consumer_0_offset CACHE_LINE
         (DEFAULT_PRODUCER_SECTION_SIZE CACHE_LINE)) hs
    = Returns (mk_metadata METADATA_MAGIC METADATA_VERSION mc es 0 bs
                 CACHE_LINE (3 * CACHE_LINE) hs (wrap32 (bs - 1)) le lb lh
                 (fill (padding meta) 0)).
Proof.
  intros Hmc Hes Hbs.
  pose proof (uint16_le_2_31 es Hes) as Hes31.
  pose proof (default_raw_header_size CACHE_LINE CACHE_LINE_64_or_128 mc Hmc) as Hraw.
  destruct (default_offsets CACHE_LINE CACHE_LINE_64_or_128) as [Hpo Hco].
  assert (Hcl : 64 <= CACHE_LINE <= 128)
    by (destruct CACHE_LINE_64_or_128 as [-> | ->]; lia).
  destruct (header_segment_size_round_up CACHE_LINE mc
              (DEFAULT_PRODUCER_SECTION_SIZE CACHE_LINE)
              (DEFAULT_CONSUMER_SECTION_SIZE CACHE_LINE)) as [_ Hge].
  rewrite Hraw in Hge. unfold PAGE_SIZE in Hge. specialize (Hge ltac:(nia)).
  rewrite Hpo, Hco.
  set (hs := header_segment_size _ _ _ _) in *.
  assert (Hhs : hs < 2 ^ 31) by nia.
  destruct (metadata_init_returns meta mc es bs CACHE_LINE (3 * CACHE_LINE) hs)
    as (m' & Hm'); try lia.
  destruct (metadata_init_inv _ _ _ _ _ _ _ _ Hm') as (le & lb & lh & _ & _ & _ & ->).
  exists le, lb, lh, hs. split; [reflexivity|]. split; [lia|exact Hm'].
Qed.

(** Section sizes read back from any record with the default offsets. *)
Lemma default_offsets_section_sizes (m : metadata) :
  1 <= max_consumers m <= 255 ->
  producer_offset m = CACHE_LINE -> consumer_0_offset m = 3 * CACHE_LINE ->
  producer_section_size m = DEFAULT_PRODUCER_SECTION_SIZE CACHE_LINE /\
  consumer_section_size CACHE_LINE m
  = Returns (DEFAULT_CONSUMER_SECTION_SIZE CACHE_LINE).
Proof.
  intros Hmc Hpo Hco.
  pose proof (default_raw_header_size CACHE_LINE CACHE_LINE_64_or_128
                (max_consumers m) ltac:(lia)) as Hraw.
  destruct (default_section_sizes CACHE_LINE CACHE_LINE_64_or_128) as [Hp Hc].
  assert (Hcl : 64 <= CACHE_LINE <= 128)
    by (destruct CACHE_LINE_64_or_128 as [-> | ->]; lia).
  unfold producer_section_size, consumer_section_size.
  rewrite Hraw, Hp, Hc, Hpo, Hco. split.
  - rewrite wrap32_small by lia. lia.
  - replace (max_consumers m =? 0) with false by (symmetry; apply Z.eqb_neq; lia).
    f_equal.
    replace (3 * CACHE_LINE + max_consumers m * (2 * CACHE_LINE) - 3 * CACHE_LINE)
      with (2 * CACHE_LINE * max_consumers m) by lia.
    rewrite wrap32_small by nia. apply Z.div_mul. lia.
Qed.

(** X8: the section sizes are recovered from a default-layout record:
    [producer_section_size] gives back the default producer section size and
    [consumer_section_size] the default consumer section size, for every
    [max_consumers] in 1..255. *)
Theorem default_layout_section_sizes_recovered (meta : metadata) (mc es bs : Z) :
  1 <= mc <= 255 -> uint16 es -> 0 <= bs <= 2 ^ 31 ->
  exists m',
    metadata_init meta mc es bs
      (default_producer_offset CACHE_LINE)
      (default_consumer_0_offset CACHE_LINE
         (DEFAULT_PRODUCER_SECTION_SIZE CACHE_LINE))
      (header_segment_size CACHE_LINE mc
         (DEFAULT_PRODUCER_SECTION_SIZE CACHE_LINE)
         (DEFAULT_CONSUMER_SECTION_SIZE CACHE_LINE)) = Returns m' /\
    producer_section_size m' = DEFAULT_PRODUCER_SECTION_SIZE CACHE_LINE /\
    consumer_section_size CACHE_LINE m'
    = Returns (DEFAULT_CONSUMER_SECTION_SIZE CACHE_LINE).
Proof.
  intros Hmc Hes Hbs.
  destruct (default_layout_init meta mc es bs) as (le & lb & lh & hs & -> & Hhs & Hinit);
    try assumption; try lia.
  eexists. split; [exact Hinit|].
  apply default_offsets_section_sizes; cbn; [lia|reflexivity|reflexivity].
Qed.

(** X9: a default-layout header is partitioned in order: the metadata record
    takes the first [CACHE_LINE] bytes, the producer section starts right
    after it and ends where consumer 0 starts, and for every [n] below
    [max_consumers] consumer [n] starts at
    [consumer_0_offset + n * DEFAULT_CONSUMER_SECTION_SIZE], where consumer
    [n - 1] ends, and ends within [header_size]. *)
Theorem default_layout_sections_partition_header
    (meta : metadata) (mc es bs : Z) :
  1 <= mc <= 255 -> uint16 es -> 0 <= bs <= 2 ^ 31 ->
  exists m',
    metadata_init meta mc es bs
      (default_producer_offset CACHE_LINE)
      (default_consumer_0_offset CACHE_LINE
         (DEFAULT_PRODUCER_SECTION_SIZE CACHE_LINE))
      (header_segment_size CACHE_LINE mc
         (DEFAULT_PRODUCER_SECTION_SIZE CACHE_LINE)
         (DEFAULT_CONSUMER_SECTION_SIZE CACHE_LINE)) = Returns m' /\
    producer_offset m' = CACHE_LINE /\
    producer_offset m' + producer_section_size m' = consumer_0_offset m' /\
    forall n, 0 <= n < mc ->
      consumer_offset CACHE_LINE m' n
      = Returns (consumer_0_offset m'
                 + n * DEFAULT_CONSUMER_SECTION_SIZE CACHE_LINE) /\
      consumer_0_offset m' + (n + 1) * DEFAULT_CONSUMER_SECTION_SIZE CACHE_LINE
      <= header_size m'.
Proof.
  intros Hmc Hes Hbs.
  destruct (default_layout_init meta mc es bs) as (le & lb & lh & hs & Hhseq & Hhs & Hinit);
    try assumption; try lia.
  rewrite <- Hhseq. clear Hhseq.
  match type of Hinit with _ = Returns ?r => set (m' := r) in * end.
  destruct (default_offsets_section_sizes m') as [Hps Hcs];
    [cbn; lia|reflexivity|reflexivity|].
  exists m'. split; [exact Hinit|]. subst m'.
  cbn [producer_offset consumer_0_offset header_size] in *.
  destruct (default_section_sizes CACHE_LINE CACHE_LINE_64_or_128) as [Hp Hc].
  assert (Hcl : 64 <= CACHE_LINE <= 128)
    by (destruct CACHE_LINE_64_or_128 as [-> | ->]; lia).
  split; [reflexivity|].
  split; [rewrite Hps, Hp; lia|].
  intros n Hn. unfold consumer_offset. rewrite Hcs. cbn [bind].
  cbn [consumer_0_offset header_size]. rewrite Hc. split.
  - f_equal. rewrite (wrap32_small (n * _)) by nia. apply wrap32_small. nia.
  - assert ((n + 1) * (2 * CACHE_LINE) <= mc * (2 * CACHE_LINE))
      by (apply Z.mul_le_mono_nonneg_r; lia).
    lia.
Qed.

End DefaultLayoutSections.

Lemma default_layout_section_sizes_recovered_witness :
  exists m',
    metadata_init (zero_metadata 128) 63 64 1024
      (default_producer_offset 128)
      (default_consumer_0_offset 128 (DEFAULT_PRODUCER_SECTION_SIZE 128))
      (header_segment_size 128 63
         (DEFAULT_PRODUCER_SECTION_SIZE 128)
         (DEFAULT_CONSUMER_SECTION_SIZE 128)) = Returns m' /\
    producer_section_size m' = DEFAULT_PRODUCER_SECTION_SIZE 128 /\
    consumer_section_size 128 m' = Returns (DEFAULT_CONSUMER_SECTION_SIZE 128).
Proof.
  apply (default_layout_section_sizes_recovered 128 (or_intror eq_refl)
           (zero_metadata 128) 63 64 1024).
  - lia.
  - unfold uint16; lia.
  - lia.
Defined.

Lemma default_layout_sections_partition_header_witness :
  exists m',
    metadata_init (zero_metadata 64) 4 64 1024
      (default_producer_offset 64)
      (default_consumer_0_offset 64 (DEFAULT_PRODUCER_SECTION_SIZE 64))
      (header_segment_size 64 4
         (DEFAULT_PRODUCER_SECTION_SIZE 64)
         (DEFAULT_CONSUMER_SECTION_SIZE 64)) = Returns m' /\
    producer_offset m' = 64 /\
    producer_offset m' + producer_section_size m' = consumer_0_offset m' /\
    forall n, 0 <= n < 4 ->
      consumer_offset 64 m' n
      = Returns (consumer_0_offset m' + n * DEFAULT_CONSUMER_SECTION_SIZE 64) /\
      consumer_0_offset m' + (n + 1) * DEFAULT_CONSUMER_SECTION_SIZE 64
      <= header_size m'.
Proof.
  apply (default_layout_sections_partition_header 64 (or_introl eq_refl)
           (zero_metadata 64) 4 64 1024).
  - lia.
  - unfold uint16; lia.
  - lia.
Defined.

(** X10: [metadata_init] accepts [max_consumers = 0]; on the record it leaves,
    [consumer_section_size] divides by zero, so it and [consumer_offset] are
    undefined for every consumer index. *)
Theorem consumer_sections_undefined_without_consumers
    (CACHE_LINE : Z) (meta m' : metadata) (es bs po co hs : Z) :
  metadata_init meta 0 es bs po co hs = Returns m' ->
  consumer_section_size CACHE_LINE m' = Undefined /\
  forall n, consumer_offset CACHE_LINE m' n = Undefined.
Proof.
  intros Hinit.
  destruct (metadata_init_inv _ _ _ _ _ _ _ _ Hinit) as (le & lb & lh & _ & _ & _ & ->).
  unfold consumer_offset, consumer_section_size. cbn [max_consumers].
  split; [reflexivity|]. intros n. reflexivity.
Qed.

Lemma consumer_sections_undefined_without_consumers_witness :
  exists m',
    metadata_init (zero_metadata 64) 0 64 1024 64 192 4096 = Returns m' /\
    consumer_section_size 64 m' = Undefined /\
    forall n, consumer_offset 64 m' n = Undefined.
Proof.
  eexists. split; [reflexivity|].
  apply (consumer_sections_undefined_without_consumers 64 (zero_metadata 64) _
           64 1024 64 192 4096).
  reflexivity.
Defined.

(** X11: [producer_section_size] recovers any 32-bit producer section size
    from the offsets [default_producer_offset] and [default_consumer_0_offset]
    built from it, even when the consumer offset has wrapped around. *)
Theorem producer_section_size_round_trip
    (CACHE_LINE : Z) (meta m' : metadata) (mc es bs hs pss : Z) :
  CACHE_LINE_ok CACHE_LINE -> uint32 pss ->
  metadata_init meta mc es bs
    (default_producer_offset CACHE_LINE)
    (default_consumer_0_offset CACHE_LINE pss) hs = Returns m' ->
  producer_section_size m' = pss.
Proof.
  intros Hcl Hpss Hinit.
  destruct (metadata_init_inv _ _ _ _ _ _ _ _ Hinit) as (le & lb & lh & _ & _ & _ & ->).
  unfold producer_section_size, default_producer_offset, default_consumer_0_offset.
  cbn [producer_offset consumer_0_offset].
  rewrite (wrap32_small CACHE_LINE) by (destruct Hcl as [-> | ->]; lia).
  unfold wrap32. rewrite Zminus_mod_idemp_l.
  replace (CACHE_LINE + pss - CACHE_LINE) with pss by lia.
  apply Z.mod_small. exact Hpss.
Qed.

Lemma producer_section_size_round_trip_witness :
  exists m',
    metadata_init (zero_metadata 64) 4 64 1024
      (default_producer_offset 64)
      (default_consumer_0_offset 64 (2 ^ 32 - 1)) 4096 = Returns m' /\
    consumer_0_offset m' = 63 /\
    producer_section_size m' = 2 ^ 32 - 1.
Proof.
  eexists. split; [reflexivity|]. split; [reflexivity|].
  apply (producer_section_size_round_trip 64 (zero_metadata 64) _ 4 64 1024 4096).
  - left; reflexivity.
  - unfold uint32; lia.
  - reflexivity.
Defined.

(** ** Slots of the data segment *)

(** X12: on a record produced by [metadata_init] from a nonzero power-of-two
    [event_size] and a power-of-two [buffer_size] whose product fits 32 bits,
    the slot of every 64-bit sequence number is at byte offset
    [(sequence mod buffer_size) * event_size], and the slot ends within
    [buffer_size * event_size] bytes. *)
Theorem slot_offset_of_sequence
    (meta m' : metadata) (mc es bs po co hs sequence : Z) :
  metadata_init meta mc es bs po co hs = Returns m' ->
  uint16 es -> pow2 es -> uint32 bs -> pow2 bs ->
  bs * es <= 2 ^ 32 ->
  uint64 sequence ->
  event_offset m' (buffer_index m' sequence)
  = Returns (sequence mod bs * es) /\
  sequence mod bs * es + es <= bs * es.
Proof.
  intros Hinit Hes Hesp Hbs Hbsp Hfit Hseq.
  destruct (metadata_init_inv _ _ _ _ _ _ _ _ Hinit) as (le & lb & lh & Hle & _ & _ & Hrec).
  pose proof (pow2_le_2_31 bs Hbs Hbsp) as Hbs31.
  pose proof (pow2_le_2_31 es (uint16_uint32 es Hes) Hesp) as Hes31.
  replace (es =? 0) with false in Hle by (symmetry; apply Z.eqb_neq; lia).
  destruct (size_to_log2_is_log2 es le (uint16_uint32 es Hes) Hesp Hle) as [Hle0 Hpow].
  assert (Hle31 : le <= 31)
    by (eapply pow2_uint32_exponent; [apply uint16_uint32|..]; eassumption).
  destruct Hbsp as (k & Hk & Hbk).
  pose proof (pow2_uint32_exponent _ _ Hbs Hk Hbk) as Hk31.
  assert (Hidx : buffer_index m' sequence = sequence mod bs).
  { rewrite (buffer_index_mod m' sequence k); subst m'; cbn; try lia.
    - now rewrite Hbk.
    - apply wrap32_small. lia. }
  pose proof (Z.mod_pos_bound sequence bs ltac:(lia)) as Hr.
  rewrite Hidx. subst m'. unfold event_offset. cbn [event_size_log2].
  rewrite shl32_mul by lia. rewrite <- Hpow.
  split.
  - f_equal. apply wrap32_small. nia.
  - nia.
Qed.

Lemma slot_offset_of_sequence_witness :
  exists m',
    metadata_init (zero_metadata 64) 4 64 1024 64 192 4096 = Returns m' /\
    event_offset m' (buffer_index m' 5000) = Returns (5000 mod 1024 * 64) /\
    5000 mod 1024 * 64 + 64 <= 1024 * 64.
Proof.
  eexists. split; [reflexivity|].
  apply (slot_offset_of_sequence (zero_metadata 64) _ 4 64 1024 64 192 4096 5000).
  - reflexivity.
  - unfold uint16; lia.
  - exists 6. split; [lia|reflexivity].
  - unfold uint32; lia.
  - exists 10. split; [lia|reflexivity].
  - lia.
  - unfold uint64; lia.
Defined.

(** ** Re-initialisation *)

Lemma fill_repeat arr v : fill arr v = repeat v (length arr).
Proof. unfold fill. induction arr as [|a arr IH]; cbn; [reflexivity|now rewrite IH]. Qed.

(** X13: the record [metadata_init] leaves depends on the memory it overwrites
    only through the number of padding bytes: initialising any other record
    with as many padding bytes, or the result itself again, gives the same
    record. *)
Theorem metadata_init_overwrites
    (meta meta2 m' : metadata) (mc es bs po co hs : Z) :
  metadata_init meta mc es bs po co hs = Returns m' ->
  length (padding meta2) = length (padding meta) ->
  metadata_init meta2 mc es bs po co hs = Returns m' /\
  metadata_init m' mc es bs po co hs = Returns m'.
Proof.
  intros Hinit Hlen.
  destruct (metadata_init_inv _ _ _ _ _ _ _ _ Hinit) as (le & lb & lh & Hle & Hlb & Hlh & ->).
  assert (Hgen : forall m0, length (padding m0) = length (padding meta) ->
            metadata_init m0 mc es bs po co hs
            = Returns (mk_metadata METADATA_MAGIC METADATA_VERSION mc es 0 bs po co hs
                         (wrap32 (bs - 1)) le lb lh (fill (padding meta) 0))).
  { intros m0 Hm0. unfold metadata_init. rewrite Hlb, Hlh.
    rewrite (fill_repeat (padding m0)), Hm0, <- fill_repeat.
    destruct (es =? 0); cbn [negb]; [subst le|rewrite Hle]; reflexivity. }
  split; [apply Hgen; assumption|].
  apply Hgen. cbn [padding]. rewrite fill_repeat. apply repeat_length.
Qed.

Lemma metadata_init_overwrites_witness :
  let stale := mk_metadata 1 2 3 4 5 6 7 8 9 10 11 12 13 (repeat 255 25) in
  exists m',
    metadata_init (zero_metadata 64) 4 64 1024 64 192 4096 = Returns m' /\
    metadata_init stale 4 64 1024 64 192 4096 = Returns m' /\
    metadata_init m' 4 64 1024 64 192 4096 = Returns m'.
Proof.
  intros stale. eexists. split; [reflexivity|].
  apply (metadata_init_overwrites (zero_metadata 64) stale _ 4 64 1024 64 192 4096).
  - reflexivity.
  - reflexivity.
Defined.

Lemma metadata_init_wf_witness :
  exists m',
    metadata_init (zero_metadata 64) 4 64 1024 64 192 4096 = Returns m' /\
    metadata_wf 64 m'.
Proof.
  eexists. split; [reflexivity|].
  apply (metadata_init_wf 64 (zero_metadata 64) 4 64 1024 64 192 4096).
  - unfold metadata_wf, zero_metadata, uint64, uint32, uint16, uint8. cbn.
    repeat (split; [lia|]). split; [|reflexivity].
    repeat constructor; lia.
  - unfold uint8; lia.
  - unfold uint16; lia.
  - unfold uint32; lia.
  - unfold uint32; lia.
  - unfold uint32; lia.
  - unfold uint32; lia.
  - reflexivity.
Defined.

(** * The platform policy against a kernel *)

Section PolicyRuns.
Import Kernel hftshm.policies.
Context {abi : posix_abi}.

Lemma run_fuel_mono {R} (t : itree platformE R) : forall fuel fuel' k n x,
  run fuel k n t = Some x -> (fuel <= fuel')%nat -> run fuel' k n t = Some x.
Proof.
  intros fuel. revert t.
  induction fuel as [|fuel IH]; intros t fuel' k n x Hrun Hle; [discriminate|].
  destruct fuel' as [|fuel']; [lia|].
  cbn [run] in *. destruct (observe t) as [r|t'|T e cont].
  - exact Hrun.
  - apply (IH t'); [exact Hrun|lia].
  - destruct (run fuel k (S n) (cont (k n T e))) as [[tr r]|] eqn:Hc; [|discriminate].
    rewrite (IH _ fuel' _ _ _ Hc) by lia. exact Hrun.
Qed.

Lemma run_Ret {R} fuel k n (r : R) : run (S fuel) k n (Ret r) = Some ([], r).
Proof. reflexivity. Qed.

Lemma run_bind_Ret {A R} fuel k n (a : A) (cont : A -> itree platformE R) :
  run fuel k n (ITree.bind (Ret a) cont) = run fuel k n (cont a).
Proof. destruct fuel; reflexivity. Qed.

Lemma run_trigger {T} (e : platformE T) fuel k n :
  run (S (S fuel)) k n (ITree.trigger e) = Some ([Syscall T e (k n T e)], k n T e).
Proof. reflexivity. Qed.

Lemma run_trigger_bind {T R} (e : platformE T) (cont : T -> itree platformE R) fuel k n :
  run (S fuel) k n (ITree.bind (ITree.trigger e) cont) =
  match run fuel k (S n) (cont (k n T e)) with
  | Some (tr, r) => Some (Syscall T e (k n T e) :: tr, r)
  | None => None
  end.
Proof.
  rewrite <- (run_bind_Ret fuel k (S n) (k n T e) cont). reflexivity.
Qed.

Lemma run_bind_bind_Ret {A B R} fuel k n (a : A)
    (g : A -> itree platformE B) (h : B -> itree platformE R) :
  run fuel k n (ITree.bind (ITree.bind (Ret a) g) h) = run fuel k n (ITree.bind (g a) h).
Proof. destruct fuel; reflexivity. Qed.

Lemma run_trigger_bind_bind {T B R} (e : platformE T)
    (g : T -> itree platformE B) (h : B -> itree platformE R) fuel k n :
  run (S fuel) k n (ITree.bind (ITree.bind (ITree.trigger e) g) h) =
  match run fuel k (S n) (ITree.bind (g (k n T e)) h) with
  | Some (tr, r) => Some (Syscall T e (k n T e) :: tr, r)
  | None => None
  end.
Proof.
  rewrite <- (run_bind_bind_Ret fuel k (S n) (k n T e) g h). reflexivity.
Qed.

Ltac run_calls :=
  repeat (first [ rewrite run_trigger_bind_bind
                | rewrite run_trigger_bind
                | rewrite run_bind_Ret
                | rewrite run_Ret
                | rewrite run_trigger ];
          cbv beta).

Lemma remove_singleton fd : remove Z.eq_dec fd [fd] = [].
Proof. cbn. destruct (Z.eq_dec fd fd); congruence. Qed.

Ltac create_cases k n :=
  unfold LinuxShmPolicy.create, LinuxShmPolicy.ensure_base_dir;
  run_calls;
  destruct (k n _ _) as [b|]; run_calls;
  [ set (fd1 := k (S n) Z _);
    destruct (fd1 <? 0) eqn:Hfd1; run_calls;
    [ set (errno := k (S (S n)) Z _);
      destruct (errno =? EEXIST) eqn:Herrno; run_calls;
      [ set (fd2 := k (S (S (S n))) Z _);
        destruct (fd2 <? 0) eqn:Hfd2; run_calls;
        [ | set (rc := k (S (S (S (S n)))) Z _);
            destruct (negb (rc =? 0)) eqn:Hrc; run_calls ]
      | ]
    | set (rc := k (S (S n)) Z _);
      destruct (negb (rc =? 0)) eqn:Hrc; run_calls ]
  | ];
  repeat match goal with x := _ |- _ => clearbody x end.

Ltac fd_sign :=
  repeat match goal with
         | H : (?fd <? 0) = true |- context [0 <=? ?fd] =>
             replace (0 <=? fd) with false by (symmetry; apply Z.leb_gt, Z.ltb_lt, H)
         | H : (?fd <? 0) = false |- context [0 <=? ?fd] =>
             replace (0 <=? fd) with true by (symmetry; apply Z.leb_le, Z.ltb_ge, H)
         end.

(** X15: [create] hands out at most one descriptor and leaks none: against
    any kernel it ends; when it returns a descriptor [fd >= 0] that is the
    only descriptor it still holds, and when it returns -1 (its only other
    result) or [create_directories] throws, every descriptor it opened has
    been closed. *)
Theorem create_closes_what_it_opens
    (k : kernel) (n : nat) (name : String.string) (size hugepage_size : Z)
    (fuel : nat) :
  (7 <= fuel)%nat ->
  exists tr r,
    run fuel k n (LinuxShmPolicy.create name size hugepage_size) = Some (tr, r) /\
    match r with
    | returns fd => (0 <= fd /\ open_fds tr = [fd]) \/ (fd = -1 /\ open_fds tr = [])
    | throws_filesystem_error => open_fds tr = []
    end.
Proof.
  intros Hfuel. do 7 (destruct fuel as [|fuel]; [exfalso; lia|]). clear Hfuel.
  create_cases k n; (eexists _, _; split; [reflexivity|]);
    unfold open_fds; cbn; fd_sign; cbn;
    try (right; split; [reflexivity|]; first [reflexivity | apply remove_singleton]).
  - left. split; [apply Z.ltb_ge, Hfd2|reflexivity].
  - left. split; [apply Z.ltb_ge, Hfd1|reflexivity].
  - reflexivity.
Qed.

(** X16: [create] removes nothing but a file it has just created: against any
    kernel, either the run unlinks nothing, or it unlinks exactly the path of
    the segment, after the exclusive [open] of that path had succeeded in the
    same run, and then returns -1. *)
Theorem create_unlinks_only_its_own_file
    (k : kernel) (n : nat) (name : String.string) (size hugepage_size : Z)
    (fuel : nat) :
  (7 <= fuel)%nat ->
  let path := LinuxShmPolicy.get_path name in
  exists tr r,
    run fuel k n (LinuxShmPolicy.create name size hugepage_size) = Some (tr, r) /\
    (unlinked tr = [] \/
     (unlinked tr = [path] /\ r = returns (-1) /\
      exists fd, 0 <= fd /\
        In (Syscall Z (inr1 (sys_open path (Z.lor (Z.lor O_RDWR O_CREAT) O_EXCL)
                               (Some 438))) fd) tr)).
Proof.
  intros Hfuel path. subst path.
  do 7 (destruct fuel as [|fuel]; [exfalso; lia|]). clear Hfuel.
  create_cases k n; (eexists _, _; split; [reflexivity|]);
    try (left; reflexivity).
  right. split; [reflexivity|]. split; [reflexivity|].
  exists fd1. split; [apply Z.ltb_ge, Hfd1|]. right. left. reflexivity.
Qed.

(** X17: what the result of [create] says about the run: a descriptor
    [fd >= 0] is returned only when the last two calls were an [open] of the
    segment path that answered [fd] and an [ftruncate] of [fd] to the
    requested size that answered 0; and [create] throws only when
    [create_directories] threw, before any other call. *)
Theorem create_result_explains_run
    (k : kernel) (n : nat) (name : String.string) (size hugepage_size : Z)
    (fuel : nat) :
  (7 <= fuel)%nat ->
  let path := LinuxShmPolicy.get_path name in
  exists tr r,
    run fuel k n (LinuxShmPolicy.create name size hugepage_size) = Some (tr, r) /\
    match r with
    | returns fd =>
        0 <= fd ->
        exists tr0 flags mode,
          tr = tr0 ++ [Syscall Z (inr1 (sys_open path flags mode)) fd;
                       Syscall Z (inr1 (sys_ftruncate fd (static_cast_off_t size))) 0]
    | throws_filesystem_error =>
        tr = [Syscall (option bool)
                (inr1 (fs_create_directories LinuxShmPolicy.BASE_PATH)) None]
    end.
Proof.
  intros Hfuel path. subst path.
  do 7 (destruct fuel as [|fuel]; [exfalso; lia|]). clear Hfuel.
  create_cases k n; (eexists _, _; split; [reflexivity|]);
    try (intros Hneg; exfalso; lia); try reflexivity.
  - intros _. apply negb_false_iff, Z.eqb_eq in Hrc. subst rc.
    eexists [_; _; _], _, _. reflexivity.
  - intros _. apply negb_false_iff, Z.eqb_eq in Hrc. subst rc.
    eexists [_], _, _. reflexivity.
Qed.

Lemma null_or_pointer_not_MAP_FAILED p :
  (if p =? MAP_FAILED then nullptr else p) <> MAP_FAILED.
Proof.
  destruct (p =? MAP_FAILED) eqn:Hp.
  - discriminate.
  - apply Z.eqb_neq. exact Hp.
Qed.

Ltac map_cases k n :=
  unfold LinuxShmPolicy.map; run_calls;
  set (p1 := k n Z _);
  match goal with
  | |- context [(p1 =? MAP_FAILED) && (0 <? ?hp)] =>
      destruct ((p1 =? MAP_FAILED) && (0 <? hp)) eqn:Hfb; run_calls;
      [ set (p2 := k (S n) Z _) | ]
  end;
  repeat match goal with x := _ |- _ => clearbody x end.

(** X18: [map] never returns [MAP_FAILED]: against any kernel it ends after
    one or two calls, each an [mmap] of the requested length on the given
    descriptor at address hint null and offset 0 with read and write
    protection, and returns either null or the address that the last of them
    answered. *)
Theorem map_never_returns_MAP_FAILED
    (k : kernel) (n : nat) (fd size hugepage_size : Z) (fuel : nat) :
  (3 <= fuel)%nat ->
  exists tr r,
    run fuel k n (LinuxShmPolicy.map fd size hugepage_size) = Some (tr, r) /\
    r <> MAP_FAILED /\
    (length tr = 1 \/ length tr = 2)%nat /\
    Forall (fun c => exists flags p,
              mmap_of c = Some (size, Z.lor PROT_READ PROT_WRITE, flags, fd, p)) tr /\
    (r <> nullptr ->
     exists tr0 c flags,
       tr = tr0 ++ [c] /\
       mmap_of c = Some (size, Z.lor PROT_READ PROT_WRITE, flags, fd, r)).
Proof.
  intros Hfuel. do 3 (destruct fuel as [|fuel]; [exfalso; lia|]). clear Hfuel.
  map_cases k n; (eexists _, _; split; [reflexivity|]);
    (split; [apply null_or_pointer_not_MAP_FAILED|]).
  - split; [right; reflexivity|]. split.
    + repeat constructor; eexists _, _; reflexivity.
    + intros Hr. destruct (p2 =? MAP_FAILED); [contradiction|].
      eexists [_], _, _. split; reflexivity.
  - split; [left; reflexivity|]. split.
    + repeat constructor; eexists _, _; reflexivity.
    + intros Hr. destruct (p1 =? MAP_FAILED); [contradiction|].
      eexists [], _, _. split; reflexivity.
Qed.

(** X19: the hugepage fallback of [map].  If the first [mmap] does not answer
    [MAP_FAILED], it is the only call and its answer is returned.  If it
    answers [MAP_FAILED] and hugepages were requested, [map] calls [mmap] once
    more with [MAP_SHARED] alone as flags and returns that answer, or null if
    it is [MAP_FAILED] again.  If it answers [MAP_FAILED] and no hugepages
    were requested, [map] returns null without a second call.  The flags of
    the first call follow the [#ifdef]s: they are [MAP_SHARED] alone when no
    hugepages are requested or [MAP_HUGETLB] is not defined; otherwise
    [MAP_HUGETLB] is added, and [MAP_HUGE_2MB] or [MAP_HUGE_1GB] only where
    that macro is defined and the hugepage size is the matching one. *)
Theorem map_falls_back_to_regular_pages
    (k : kernel) (n : nat) (fd size hugepage_size : Z) (fuel : nat) :
  (3 <= fuel)%nat ->
  let prot := Z.lor PROT_READ PROT_WRITE in
  let e1 := inr1 (sys_mmap nullptr size prot
                    (LinuxShmPolicy.map_flags hugepage_size) fd 0) in
  let e2 := inr1 (sys_mmap nullptr size prot MAP_SHARED fd 0) in
  let p1 := k n Z e1 in
  let p2 := k (S n) Z e2 in
  let run_map := run fuel k n (LinuxShmPolicy.map fd size hugepage_size) in
  (p1 <> MAP_FAILED -> run_map = Some ([Syscall Z e1 p1], p1)) /\
  (p1 = MAP_FAILED -> 0 < hugepage_size ->
   run_map = Some ([Syscall Z e1 p1; Syscall Z e2 p2],
                   if p2 =? MAP_FAILED then nullptr else p2)) /\
  (p1 = MAP_FAILED -> hugepage_size <= 0 ->
   run_map = Some ([Syscall Z e1 p1], nullptr)) /\
  (hugepage_size <= 0 \/ MAP_HUGETLB = None ->
   LinuxShmPolicy.map_flags hugepage_size = MAP_SHARED) /\
  (forall hugetlb, 0 < hugepage_size -> MAP_HUGETLB = Some hugetlb ->
     (MAP_HUGE_2MB = None \/ hugepage_size <> HUGEPAGE_2MB) ->
     (MAP_HUGE_1GB = None \/ hugepage_size <> HUGEPAGE_1GB) ->
     LinuxShmPolicy.map_flags hugepage_size = Z.lor MAP_SHARED hugetlb) /\
  (forall hugetlb huge_2mb, hugepage_size = HUGEPAGE_2MB ->
     MAP_HUGETLB = Some hugetlb -> MAP_HUGE_2MB = Some huge_2mb ->
     LinuxShmPolicy.map_flags hugepage_size
     = Z.lor (Z.lor MAP_SHARED hugetlb) huge_2mb) /\
  (forall hugetlb huge_1gb, hugepage_size = HUGEPAGE_1GB ->
     MAP_HUGETLB = Some hugetlb -> MAP_HUGE_1GB = Some huge_1gb ->
     LinuxShmPolicy.map_flags hugepage_size
     = Z.lor (Z.lor MAP_SHARED hugetlb) huge_1gb).
Proof.
  intros Hfuel prot e1 e2 p1 p2 run_map. subst run_map.
  do 3 (destruct fuel as [|fuel]; [exfalso; lia|]). clear Hfuel.
  unfold LinuxShmPolicy.map. run_calls.
  change (k n Z (subevent Z (sys_mmap nullptr size (Z.lor PROT_READ PROT_WRITE)
                               (LinuxShmPolicy.map_flags hugepage_size) fd 0)))
    with p1.
  split; [|split; [|split]].
  - intros Hp1. apply Z.eqb_neq in Hp1. rewrite Hp1. cbn [andb]. run_calls.
    reflexivity.
  - intros Hp1 Hhp. rewrite Hp1, Z.eqb_refl.
    replace (0 <? hugepage_size) with true by (symmetry; apply Z.ltb_lt, Hhp).
    cbn [andb]. run_calls. reflexivity.
  - intros Hp1 Hhp. rewrite Hp1, Z.eqb_refl.
    replace (0 <? hugepage_size) with false by (symmetry; apply Z.ltb_ge, Hhp).
    cbn [andb]. run_calls. reflexivity.
  - unfold LinuxShmPolicy.map_flags. split; [|split; [|split]].
    + intros [Hhp | Hnone].
      * replace (0 <? hugepage_size) with false by (symmetry; apply Z.ltb_ge, Hhp).
        reflexivity.
      * rewrite Hnone. destruct (0 <? hugepage_size); reflexivity.
    + intros hugetlb Hhp Htlb H2 H1. rewrite Htlb.
      replace (0 <? hugepage_size) with true by (symmetry; apply Z.ltb_lt, Hhp).
      assert (E2 : match MAP_HUGE_2MB with
                   | Some huge_2mb =>
                       if hugepage_size =? HUGEPAGE_2MB
                       then Z.lor (Z.lor MAP_SHARED hugetlb) huge_2mb
                       else Z.lor MAP_SHARED hugetlb
                   | None => Z.lor MAP_SHARED hugetlb
                   end = Z.lor MAP_SHARED hugetlb).
      { destruct H2 as [-> | Hne]; [reflexivity|].
        apply Z.eqb_neq in Hne. rewrite Hne. now destruct MAP_HUGE_2MB. }
      cbv zeta. rewrite E2.
      destruct H1 as [-> | Hne]; [reflexivity|].
      apply Z.eqb_neq in Hne. rewrite Hne. now destruct MAP_HUGE_1GB.
    + intros hugetlb huge_2mb -> Htlb H2. rewrite Htlb, H2. cbv zeta.
      change (0 <? HUGEPAGE_2MB) with true.
      change (HUGEPAGE_2MB =? HUGEPAGE_2MB) with true.
      change (HUGEPAGE_2MB =? HUGEPAGE_1GB) with false.
      cbv iota. now destruct MAP_HUGE_1GB.
    + intros hugetlb huge_1gb -> Htlb H1. rewrite Htlb, H1. cbv zeta.
      change (0 <? HUGEPAGE_1GB) with true.
      change (HUGEPAGE_1GB =? HUGEPAGE_1GB) with true.
      change (HUGEPAGE_1GB =? HUGEPAGE_2MB) with false.
      cbv iota. now destruct MAP_HUGE_2MB.
Qed.

(** X20: without hugepages [LinuxShmPolicy::map] is [MacOSShmPolicy::map]:
    against every kernel and with any fuel the two runs coincide, whatever
    hugepage size the macOS policy is given; the single [mmap] has flags
    [MAP_SHARED]. *)
Theorem map_without_hugepages_is_macos_map
    (k : kernel) (n : nat) (fd size ignored : Z) (fuel : nat) :
  LinuxShmPolicy.map_flags 0 = MAP_SHARED /\
  run fuel k n (LinuxShmPolicy.map fd size 0)
  = run fuel k n (MacOSShmPolicy.map fd size ignored).
Proof.
  split; [reflexivity|].
  unfold LinuxShmPolicy.map, MacOSShmPolicy.map.
  destruct fuel as [|fuel]; [reflexivity|].
  rewrite !run_trigger_bind. cbv beta.
  change (LinuxShmPolicy.map_flags 0) with MAP_SHARED.
  change (0 <? 0) with false. rewrite andb_false_r. reflexivity.
Qed.

(** X21: [unmap] undoes [map]: whatever address [map] returns, [unmap] on it
    issues exactly one [munmap] of that address unless the address is null,
    in which case it issues none; the [MAP_FAILED] guard of [unmap] never
    fires on a result of [map]. *)
Theorem unmap_after_map
    (k : kernel) (n : nat) (fd size hugepage_size : Z) (fuel : nat) :
  (3 <= fuel)%nat ->
  exists tr r,
    run fuel k n (LinuxShmPolicy.map fd size hugepage_size) = Some (tr, r) /\
    unmap r size =
    if r =? nullptr then Ret tt
    else ITree.bind (ITree.trigger (sys_munmap r size)) (fun _ => Ret tt).
Proof.
  intros Hfuel. do 3 (destruct fuel as [|fuel]; [exfalso; lia|]). clear Hfuel.
  map_cases k n; (eexists _, _; split; [reflexivity|]); unfold unmap.
  - destruct (p2 =? MAP_FAILED) eqn:Hp; [reflexivity|].
    rewrite Hp. now destruct (p2 =? nullptr).
  - destruct (p1 =? MAP_FAILED) eqn:Hp; [reflexivity|].
    rewrite Hp. now destruct (p1 =? nullptr).
Qed.

(** ** Inspection *)

Lemma perm_char_eq mode1 mode2 mask c :
  c <> Ascii.Ascii true false true true false true false false ->
  LinuxShmPolicy.perm_char mode1 mask c = LinuxShmPolicy.perm_char mode2 mask c <->
  (Z.land mode1 mask =? 0) = (Z.land mode2 mask =? 0).
Proof.
  intros Hc. unfold LinuxShmPolicy.perm_char.
  destruct (Z.land mode1 mask =? 0), (Z.land mode2 mask =? 0); cbn;
    split; intros H; try reflexivity; try discriminate H; congruence.
Qed.

(** X22: the permission string has nine characters, and it records exactly
    the nine tests [mode & S_I*] of [get_info]: two modes give the same string
    if and only if each of the nine tests is zero for both or nonzero for
    both. *)
Theorem permissions_of_records_the_nine_tests (mode1 mode2 : Z) :
  String.length (LinuxShmPolicy.permissions_of mode1) = 9%nat /\
  (LinuxShmPolicy.permissions_of mode1 = LinuxShmPolicy.permissions_of mode2 <->
   Forall (fun mask => (Z.land mode1 mask =? 0) = (Z.land mode2 mask =? 0))
     [S_IRUSR; S_IWUSR; S_IXUSR; S_IRGRP; S_IWGRP; S_IXGRP;
      S_IROTH; S_IWOTH; S_IXOTH]).
Proof.
  split; [reflexivity|].
  unfold LinuxShmPolicy.permissions_of. split.
  - intros H. injection H as H1 H2 H3 H4 H5 H6 H7 H8 H9.
    repeat (constructor; [eapply perm_char_eq; [|eassumption]; discriminate|]).
    constructor.
  - intros H. unfold LinuxShmPolicy.perm_char.
    repeat match goal with
           | H : Forall _ (_ :: _) |- _ =>
               let Hh := fresh "Hh" in
               apply Forall_cons_iff in H; destruct H as [Hh H];
               rewrite Hh; clear Hh
           end.
    reflexivity.
Qed.



(** X24: when the object exists but [stat] on it fails, [get_info] still
    returns a snapshot: [exists] is true, the strings are empty,
    [hugepage_size] is 0, and [size] is never written. *)
Theorem get_info_stat_failure_leaves_size_unwritten
    (k : kernel) (n : nat) (name : String.string) (fuel : nat) :
  (4 <= fuel)%nat ->
  let path := LinuxShmPolicy.get_path name in
  k n _ (inr1 (fs_exists path)) = Some true ->
  fst (k (S n) _ (inr1 (sys_stat path))) <> 0 ->
  exists tr,
    run fuel k n (LinuxShmPolicy.get_info name)
    = Some (tr, returns (SegmentInfo.mk path (Some true) None String.EmptyString
                           (Some 0) String.EmptyString)) /\
    length tr = 2%nat.
Proof.
  intros Hfuel path Hexists Hstat. subst path.
  do 4 (destruct fuel as [|fuel]; [exfalso; lia|]). clear Hfuel.
  unfold LinuxShmPolicy.get_info. run_calls.
  change (k n (option bool) (subevent (option bool)
            (fs_exists (LinuxShmPolicy.get_path name))))
    with (k n (option bool) (inr1 (fs_exists (LinuxShmPolicy.get_path name)))).
  rewrite Hexists. run_calls.
  change (k (S n) (Z * stat_t)%type (subevent (Z * stat_t)%type
            (sys_stat (LinuxShmPolicy.get_path name))))
    with (k (S n) (Z * stat_t)%type (inr1 (sys_stat (LinuxShmPolicy.get_path name)))).
  destruct (k (S n) _ _) as [rc st]. cbn [fst] in Hstat. cbv beta iota.
  replace (rc =? 0) with false by (symmetry; apply Z.eqb_neq, Hstat).
  run_calls. eexists. split; reflexivity.
Qed.

End PolicyRuns.

Section PolicyRunWitnesses.
Import Ascii String.
Import Kernel hftshm.policies.

Lemma create_closes_what_it_opens_witness :
  exists tr r,
    run 7 attach_kernel 0
      (@LinuxShmPolicy.create linux_x86_64 "test1.hdr" 4096 0) = Some (tr, r) /\
    match r with
    | returns fd => (0 <= fd /\ open_fds tr = [fd]) \/ (fd = -1 /\ open_fds tr = [])
    | throws_filesystem_error => open_fds tr = []
    end.
Proof.
  apply (@create_closes_what_it_opens linux_x86_64 attach_kernel 0 "test1.hdr" 4096 0 7).
  lia.
Defined.

Lemma create_unlinks_only_its_own_file_witness :
  let path := @LinuxShmPolicy.get_path "test1.hdr" in
  exists tr r,
    run 7 full_disk_kernel 0
      (@LinuxShmPolicy.create linux_x86_64 "test1.hdr" 4096 0) = Some (tr, r) /\
    (unlinked tr = [] \/
     (unlinked tr = [path] /\ r = returns (-1) /\
      exists fd, 0 <= fd /\
        In (Syscall Z (inr1 (sys_open path
                               (Z.lor (Z.lor (@O_RDWR linux_x86_64) (@O_CREAT linux_x86_64))
                                  (@O_EXCL linux_x86_64))
                               (Some 438))) fd) tr)).
Proof.
  apply (@create_unlinks_only_its_own_file linux_x86_64 full_disk_kernel 0
           "test1.hdr" 4096 0 7).
  lia.
Defined.

Lemma create_result_explains_run_witness :
  let path := @LinuxShmPolicy.get_path "test1.hdr" in
  exists tr r,
    run 7 attach_kernel 0
      (@LinuxShmPolicy.create linux_x86_64 "test1.hdr" 4096 0) = Some (tr, r) /\
    match r with
    | returns fd =>
        0 <= fd ->
        exists tr0 flags mode,
          tr = tr0 ++ [Syscall Z (inr1 (sys_open path flags mode)) fd;
                       Syscall Z (inr1 (sys_ftruncate fd (static_cast_off_t 4096))) 0]
    | throws_filesystem_error =>
        tr = [Syscall (option bool)
                (inr1 (fs_create_directories LinuxShmPolicy.BASE_PATH)) None]
    end.
Proof.
  apply (@create_result_explains_run linux_x86_64 attach_kernel 0 "test1.hdr" 4096 0 7).
  lia.
Defined.

Lemma map_never_returns_MAP_FAILED_witness :
  exists tr r,
    run 3 no_hugepage_kernel 0
      (@LinuxShmPolicy.map linux_x86_64 5 4194304 HUGEPAGE_2MB) = Some (tr, r) /\
    r <> MAP_FAILED /\
    (List.length tr = 1 \/ List.length tr = 2)%nat /\
    Forall (fun c => exists flags p,
              mmap_of c = Some (4194304, Z.lor (@PROT_READ linux_x86_64)
                                           (@PROT_WRITE linux_x86_64), flags, 5, p)) tr /\
    (r <> nullptr ->
     exists tr0 c flags,
       tr = tr0 ++ [c] /\
       mmap_of c = Some (4194304, Z.lor (@PROT_READ linux_x86_64)
                                     (@PROT_WRITE linux_x86_64), flags, 5, r)).
Proof.
  apply (@map_never_returns_MAP_FAILED linux_x86_64 no_hugepage_kernel 0
           5 4194304 HUGEPAGE_2MB 3).
  lia.
Defined.

Lemma map_falls_back_to_regular_pages_witness :
  run 3 no_hugepage_kernel 0
    (@LinuxShmPolicy.map linux_x86_64 5 4194304 HUGEPAGE_2MB)
  = Some ([Syscall Z (inr1 (sys_mmap nullptr 4194304 3 262145 5 0)) MAP_FAILED;
           Syscall Z (inr1 (sys_mmap nullptr 4194304 3 1 5 0)) 140737488355328],
          140737488355328) /\
  @LinuxShmPolicy.map_flags linux_x86_64 HUGEPAGE_2MB = 262145 /\
  @LinuxShmPolicy.map_flags linux_x86_64_MAP_HUGE HUGEPAGE_2MB = 1409548289 /\
  @LinuxShmPolicy.map_flags linux_x86_64_MAP_HUGE HUGEPAGE_1GB = 2013528065.
Proof.
  assert (Hfuel : (3 <= 3)%nat) by lia.
  assert (Hhp : 0 < HUGEPAGE_2MB) by (unfold HUGEPAGE_2MB; lia).
  pose proof (@map_falls_back_to_regular_pages linux_x86_64
                no_hugepage_kernel 0 5 4194304 HUGEPAGE_2MB 3 Hfuel)
    as (_ & Hfb & _ & _ & Hplain & _ & _).
  pose proof (@map_falls_back_to_regular_pages linux_x86_64_MAP_HUGE
                no_hugepage_kernel 0 5 4194304 HUGEPAGE_2MB 3 Hfuel)
    as (_ & _ & _ & _ & _ & H2mb & _).
  pose proof (@map_falls_back_to_regular_pages linux_x86_64_MAP_HUGE
                no_hugepage_kernel 0 5 4194304 HUGEPAGE_1GB 3 Hfuel)
    as (_ & _ & _ & _ & _ & _ & H1gb).
  split; [exact (Hfb eq_refl Hhp)|]. split.
  - exact (Hplain 262144 Hhp eq_refl (or_introl eq_refl) (or_introl eq_refl)).
  - split.
    + exact (H2mb 262144 1409286144 eq_refl eq_refl eq_refl).
    + exact (H1gb 262144 2013265920 eq_refl eq_refl eq_refl).
Defined.

Lemma unmap_after_map_witness :
  exists tr r,
    run 3 no_hugepage_kernel 0
      (@LinuxShmPolicy.map linux_x86_64 5 4194304 HUGEPAGE_2MB) = Some (tr, r) /\
    unmap r 4194304 =
    if r =? nullptr then Ret tt
    else ITree.bind (ITree.trigger (sys_munmap r 4194304)) (fun _ => Ret tt).
Proof.
  apply (@unmap_after_map linux_x86_64 no_hugepage_kernel 0 5 4194304 HUGEPAGE_2MB 3).
  lia.
Defined.


Lemma get_info_stat_failure_leaves_size_unwritten_witness :
  exists tr,
    run 4 stat_fails_kernel 0 (@LinuxShmPolicy.get_info linux_x86_64 "test1.hdr")
    = Some (tr, returns (SegmentInfo.mk (LinuxShmPolicy.get_path "test1.hdr")
                           (Some true) None String.EmptyString
                           (Some 0) String.EmptyString)) /\
    List.length tr = 2%nat.
Proof.
  apply (@get_info_stat_failure_leaves_size_unwritten linux_x86_64
           stat_fails_kernel 0 "test1.hdr" 4).
  - lia.
  - reflexivity.
  - cbn. lia.
Defined.

End PolicyRunWitnesses.

(** * Paths *)

Section Paths.
Import Ascii String.
Import hftshm.policies.

Lemma string_length_append (a b : string) :
  length (a ++ b) = (length a + length b)%nat.
Proof. induction a as [|x a IH]; cbn; [reflexivity|now rewrite IH]. Qed.

Lemma list_ascii_of_append (a b : string) :
  list_ascii_of_string (a ++ b)
  = (list_ascii_of_string a ++ list_ascii_of_string b)%list.
Proof. induction a as [|x a IH]; cbn; [reflexivity|now rewrite IH]. Qed.

Lemma list_ascii_of_string_inj (a b : string) :
  list_ascii_of_string a = list_ascii_of_string b -> a = b.
Proof.
  intros H. rewrite <- (string_of_list_ascii_of_string a),
    <- (string_of_list_ascii_of_string b). now rewrite H.
Qed.

Lemma append_inv_head (a b c : string) : (a ++ b = a ++ c)%string -> b = c.
Proof. induction a as [|x a IH]; cbn; intros H; [exact H|]. injection H as H. auto. Qed.

Lemma append_inv_tail (a b c : string) : (a ++ c = b ++ c)%string -> a = b.
Proof.
  intros H. apply list_ascii_of_string_inj.
  apply (f_equal list_ascii_of_string) in H.
  rewrite !list_ascii_of_append in H. eapply app_inv_tail. exact H.
Qed.

Lemma hdr_is_not_dat (a b : string) : (a ++ ".hdr" <> b ++ ".dat")%string.
Proof.
  intros H. apply (f_equal list_ascii_of_string) in H.
  rewrite !list_ascii_of_append in H. cbn in H.
  change (?l ++ [?c1; ?c2; ?c3; ?c4])%list
    with (l ++ [c1; c2; c3] ++ [c4])%list in H.
  rewrite !app_assoc in H. apply app_inj_tail in H. destruct H as [_ H].
  discriminate H.
Qed.

(** X25: the header and data paths of a platform identify the ring buffer:
    two names with the same header path, or the same data path, are equal,
    and no header path is the data path of any name. *)
Theorem segment_paths_identify_the_name (target : platform) (name1 name2 : string) :
  (get_header_path target name1 = get_header_path target name2 -> name1 = name2) /\
  (get_data_path target name1 = get_data_path target name2 -> name1 = name2) /\
  get_header_path target name1 <> get_data_path target name2.
Proof.
  unfold get_header_path, get_data_path. split; [|split].
  - intros H. apply append_inv_tail in H. eapply append_inv_head. exact H.
  - intros H. apply append_inv_tail in H. eapply append_inv_head. exact H.
  - apply hdr_is_not_dat.
Qed.

(** X26: the policies and the layout header agree on the paths: on Linux and
    on macOS the policy's [get_header_path] and [get_data_path] are those of
    the layout header.  [create] and [open] use [get_path], which is the
    header path only when they are given the name with its [.hdr] suffix: the
    path of the bare name is neither the header nor the data path. *)
Theorem policy_paths_agree_with_layout (name : string) :
  LinuxShmPolicy.get_header_path name = get_header_path linux name /\
  LinuxShmPolicy.get_data_path name = get_data_path linux name /\
  MacOSShmPolicy.get_header_path name = get_header_path apple name /\
  MacOSShmPolicy.get_data_path name = get_data_path apple name /\
  LinuxShmPolicy.get_path (name ++ ".hdr") = get_header_path linux name /\
  LinuxShmPolicy.get_path (name ++ ".dat") = get_data_path linux name /\
  LinuxShmPolicy.get_path name <> get_header_path linux name /\
  LinuxShmPolicy.get_path name <> get_data_path linux name.
Proof.
  unfold LinuxShmPolicy.get_header_path, LinuxShmPolicy.get_data_path,
    MacOSShmPolicy.get_header_path, MacOSShmPolicy.get_data_path,
    LinuxShmPolicy.get_path, MacOSShmPolicy.get_path,
    get_header_path, get_data_path.
  repeat (split; [reflexivity|]).
  split; intros H; apply (f_equal length) in H;
    cbn in H; rewrite !string_length_append in H; cbn in H; lia.
Qed.

Lemma segment_paths_identify_the_name_witness :
  get_header_path linux "test1" = "/dev/shm/hft/test1.hdr"%string /\
  "test1"%string = "test1"%string /\
  get_header_path linux "test1" <> get_data_path linux "test1".
Proof.
  split; [reflexivity|].
  pose proof (segment_paths_identify_the_name linux "test1" "test1") as (Hh & _ & Hne).
  split; [exact (Hh eq_refl)|exact Hne].
Defined.

End Paths.

(** * Segment handles *)

(** X27: releasing through a handle: on a handle that [is_valid] accepts,
    [close_fd] issues the [close] of its descriptor and, unless the address
    is [MAP_FAILED], [unmap] issues the [munmap] of its mapping; on a
    default-constructed handle, which [is_valid] rejects, both are no-ops. *)
Theorem release_through_handle (h : SegmentHandle.t) :
  (SegmentHandle.is_valid h = true ->
   policies.close_fd (SegmentHandle.fd h)
   = ITree.bind (ITree.trigger (policies.sys_close (SegmentHandle.fd h)))
       (fun _ => Ret tt) /\
   (SegmentHandle.ptr h <> policies.MAP_FAILED ->
    policies.unmap (SegmentHandle.ptr h) (SegmentHandle.size h)
    = ITree.bind (ITree.trigger (policies.sys_munmap (SegmentHandle.ptr h)
                                   (SegmentHandle.size h)))
        (fun _ => Ret tt))) /\
  SegmentHandle.is_valid SegmentHandle.default = false /\
  policies.close_fd (SegmentHandle.fd SegmentHandle.default) = Ret tt /\
  policies.unmap (SegmentHandle.ptr SegmentHandle.default)
    (SegmentHandle.size SegmentHandle.default) = Ret tt.
Proof.
  split; [|repeat split].
  unfold SegmentHandle.is_valid. intros Hv.
  apply andb_true_iff in Hv. destruct Hv as [Hv Hsz].
  apply andb_true_iff in Hv. destruct Hv as [Hfd Hptr].
  apply Z.leb_le in Hfd. apply negb_true_iff, Z.eqb_neq in Hptr.
  split; [apply close_fd_valid; assumption|].
  intros Hmf. apply unmap_valid; assumption.
Qed.

Lemma release_through_handle_witness :
  let h := SegmentHandle.mk 5 140737488355328 4096 String.EmptyString in
  SegmentHandle.is_valid h = true /\
  policies.close_fd 5
  = ITree.bind (ITree.trigger (policies.sys_close 5)) (fun _ => Ret tt) /\
  policies.unmap 140737488355328 4096
  = ITree.bind (ITree.trigger (policies.sys_munmap 140737488355328 4096))
      (fun _ => Ret tt).
Proof.
  intros h.
  assert (Hv : SegmentHandle.is_valid h = true) by reflexivity.
  assert (Hp : SegmentHandle.ptr h <> policies.MAP_FAILED) by discriminate.
  split; [exact Hv|].
  pose proof (proj1 (release_through_handle h) Hv) as [Hc Hu].
  split; [exact Hc|exact (Hu Hp)].
Defined.

Lemma permissions_of_records_the_nine_tests_witness :
  @policies.LinuxShmPolicy.permissions_of Kernel.linux_x86_64 420
  = @policies.LinuxShmPolicy.permissions_of Kernel.linux_x86_64 33188.
Proof.
  apply (proj2 (@permissions_of_records_the_nine_tests Kernel.linux_x86_64 420 33188)).
  repeat constructor.
Defined.
